(** * OCEAN parser (electronicparsers/ocean/parser.py): a shallow embedding

    The parser reads one main JSON document and the auxiliary text files of
    a directory (photon, absspct and abslanc files), builds one child archive per
    spectra file and stitches the children into a PhotonPolarization
    workflow.  The embedding follows the methods of [OceanParser] one by
    one.  Python exceptions are values of [exn]; the mutable archives live
    in an explicit [heap] threaded through a state-and-error monad. *)

From Stdlib Require Import String Ascii List ZArith QArith Bool Lia.
From Stdlib Require Import Sorting.Mergesort Sorting.Sorted Sorting.Permutation.
From Stdlib Require Import Numbers.DecimalString Numbers.DecimalZ.
Import ListNotations.

Set Warnings "-register-all".

Local Open Scope string_scope.
Local Open Scope list_scope.
Local Open Scope Z_scope.

(** ** Python values and exceptions *)

(** What [json.load] returns.  A dict keeps its keys in insertion order.
    The parser never computes with a float, it only stores it or truncates
    it with [int], so a float is kept as the exact rational it denotes. *)
Inductive json : Type :=
| JNull
| JBool (b : bool)
| JInt (z : Z)
| JFloat (q : Q)
| JStr (s : string)
| JList (l : list json)
| JDict (kv : list (string * json)).

(** The exceptions the parser can meet; [KeyError] carries the missing key. *)
Inductive exn : Type :=
| KeyError (key : json)
| IndexError
| TypeError
| AttributeError
| ValueError.

Inductive result (A : Type) : Type :=
| Ok (a : A)
| Raise (e : exn).
Arguments Ok {A} a.
Arguments Raise {A} e.

Module Res.
Definition bind {A B} (r : result A) (k : A -> result B) : result B :=
  match r with
  | Ok a => k a
  | Raise e => Raise e
  end.

Fixpoint mapM {A B} (f : A -> result B) (l : list A) : result (list B) :=
  match l with
  | [] => Ok []
  | x :: tl =>
      match f x with
      | Ok y => match mapM f tl with
                | Ok ys => Ok (y :: ys)
                | Raise e => Raise e
                end
      | Raise e => Raise e
      end
  end.
End Res.

Declare Scope res_scope.
Delimit Scope res_scope with res.
Notation "'let?' x ':=' c1 'in' c2" := (Res.bind c1 (fun x => c2))
  (at level 10, x name, c1 at level 100, c2 at level 200) : res_scope.
Local Open Scope res_scope.

Definition is_ok {A} (r : result A) : bool :=
  match r with Ok _ => true | Raise _ => false end.

(** ** Built-ins on sequences *)

Module Py.

(** [l[i]] on a list: a negative index counts from the end. *)
Definition index {A} (l : list A) (i : Z) : result A :=
  let n := Z.of_nat (length l) in
  let j := if i <? 0 then n + i else i in
  if (j <? 0) || (n <=? j) then Raise IndexError
  else match nth_error l (Z.to_nat j) with
       | Some x => Ok x
       | None => Raise IndexError
       end.

(** [l[i:]]: the start is clamped to the bounds of the list. *)
Definition slice_from {A} (l : list A) (i : Z) : list A :=
  let n := Z.of_nat (length l) in
  let j := if i <? 0 then Z.max 0 (n + i) else i in
  skipn (Z.to_nat j) l.

Definition chars (s : string) : list ascii := list_ascii_of_string s.
Definition of_chars (l : list ascii) : string := string_of_list_ascii l.

(** [s[i:]] on a string. *)
Definition str_slice_from (s : string) (i : Z) : string :=
  of_chars (slice_from (chars s) i).

Definition startswith (s p : string) : bool := String.prefix p s.

Definition endswith (s p : string) : bool :=
  let ls := String.length s in
  let lp := String.length p in
  (lp <=? ls)%nat && String.eqb (String.substring (ls - lp) lp s) p.

(** [s.split(sep)] for a one-character separator. *)
Fixpoint split_on (sep : ascii) (s : string) : list string :=
  match s with
  | EmptyString => [EmptyString]
  | String c tl =>
      if Ascii.eqb c sep then EmptyString :: split_on sep tl
      else match split_on sep tl with
           | w :: ws => String c w :: ws
           | [] => [String c EmptyString]
           end
  end.

(** [s.upper()] on the ASCII letters. *)
Definition upper_char (c : ascii) : ascii :=
  let n := nat_of_ascii c in
  if (97 <=? n)%nat && (n <=? 122)%nat then ascii_of_nat (n - 32) else c.

Definition upper (s : string) : string := of_chars (map upper_char (chars s)).

(** [str(z)] for an integer. *)
Definition str_of_int (z : Z) : string := NilZero.string_of_int (Z.to_int z).

Fixpoint join (sep : string) (l : list string) : string :=
  match l with
  | [] => ""
  | [x] => x
  | x :: tl => x ++ sep ++ join sep tl
  end.

(** [str(l)] for a list of integers: [[1, 0]] prints as "[1, 0]". *)
Definition str_of_int_list (l : list Z) : string :=
  "[" ++ join ", " (map str_of_int l) ++ "]".

(** The white space [int] skips around a literal.  A character is read
    as the code point of its code, below 256: tab to carriage return and
    the space, and above the ASCII range the next-line and no-break-space
    characters.  The separators 28 to 31 are not skipped by [int]. *)
Definition is_space (c : ascii) : bool :=
  let n := nat_of_ascii c in
  ((9 <=? n)%nat && (n <=? 13)%nat) || (n =? 32)%nat
  || (n =? 133)%nat || (n =? 160)%nat.

Definition is_digit (c : ascii) : bool :=
  let n := nat_of_ascii c in (48 <=? n)%nat && (n <=? 57)%nat.

Fixpoint lstrip (l : list ascii) : list ascii :=
  match l with
  | c :: tl => if is_space c then lstrip tl else l
  | [] => []
  end.

Definition strip (l : list ascii) : list ascii :=
  rev (lstrip (rev (lstrip l))).

(** Digits of a literal, most significant first; a single underscore may
    separate two digits. *)
Fixpoint digits (prev_digit : bool) (acc : Z) (l : list ascii) : option Z :=
  match l with
  | [] => if prev_digit then Some acc else None
  | c :: tl =>
      if is_digit c then
        digits true (10 * acc + Z.of_nat (nat_of_ascii c - 48)) tl
      else if Ascii.eqb c "_"%char && prev_digit then digits false acc tl
      else None
  end.

(** [int(s)] for a string: surrounding white space, an optional sign and
    ASCII decimal digits. *)
Definition int_of_str (s : string) : result Z :=
  match strip (chars s) with
  | c :: tl =>
      if Ascii.eqb c "-"%char then
        match digits false 0 tl with
        | Some z => Ok (- z)
        | None => Raise ValueError
        end
      else if Ascii.eqb c "+"%char then
        match digits false 0 tl with
        | Some z => Ok z
        | None => Raise ValueError
        end
      else
        match digits false 0 (c :: tl) with
        | Some z => Ok z
        | None => Raise ValueError
        end
  | [] => Raise ValueError
  end.

(** [int(x)] for a number: truncation towards zero. *)
Definition int_of_Q (q : Q) : Z := Z.quot (Qnum q) (Zpos (Qden q)).

End Py.


(** ** Operations on JSON values, with the exception Python raises *)

Module Json.

Fixpoint assoc {A} (k : string) (kv : list (string * A)) : option A :=
  match kv with
  | [] => None
  | (k', v) :: tl => if String.eqb k k' then Some v else assoc k tl
  end.

(** Truth value of a value in an [if]. *)
Definition truthy (v : json) : bool :=
  match v with
  | JNull => false
  | JBool b => b
  | JInt z => negb (z =? 0)
  | JFloat q => negb (Qeq_bool q 0)
  | JStr s => negb (String.eqb s "")
  | JList l => match l with [] => false | _ => true end
  | JDict kv => match kv with [] => false | _ => true end
  end.

(** [d[k]] for a string key [k]. *)
Definition getitem (d : json) (k : string) : result json :=
  match d with
  | JDict kv =>
      match assoc k kv with
      | Some v => Ok v
      | None => Raise (KeyError (JStr k))
      end
  | _ => Raise TypeError
  end.

(** [d.get(k)] and [d.get(k, default)]. *)
Definition get_default (d : json) (k : string) (default : json) : result json :=
  match d with
  | JDict kv =>
      match assoc k kv with
      | Some v => Ok v
      | None => Ok default
      end
  | _ => Raise AttributeError
  end.

Definition get (d : json) (k : string) : result json := get_default d k JNull.

(** [d.keys()]. *)
Definition keys (d : json) : result (list string) :=
  match d with
  | JDict kv => Ok (map fst kv)
  | _ => Raise AttributeError
  end.

(** The elements a [for] loop or a comprehension sees. *)
Definition iter (v : json) : result (list json) :=
  match v with
  | JList l => Ok l
  | JStr s => Ok (map (fun c => JStr (String c EmptyString)) (Py.chars s))
  | JDict kv => Ok (map (fun p => JStr (fst p)) kv)
  | _ => Raise TypeError
  end.

(** [v[i]] for an integer [i]. *)
Definition getitem_int (v : json) (i : Z) : result json :=
  match v with
  | JList l => Py.index l i
  | JStr s => Py.index (map (fun c => JStr (String c EmptyString)) (Py.chars s)) i
  | JDict _ => Raise (KeyError (JInt i))
  | _ => Raise TypeError
  end.

(** [int(v)]. *)
Definition to_int (v : json) : result Z :=
  match v with
  | JInt z => Ok z
  | JBool b => Ok (if b then 1 else 0)
  | JFloat q => Ok (Py.int_of_Q q)
  | JStr s => Py.int_of_str s
  | _ => Raise TypeError
  end.

(** A value used as a list index or in integer arithmetic. *)
Definition as_index (v : json) : result Z :=
  match v with
  | JInt z => Ok z
  | JBool b => Ok (if b then 1 else 0)
  | _ => Raise TypeError
  end.

(** [v.upper()]. *)
Definition upper (v : json) : result string :=
  match v with
  | JStr s => Ok (Py.upper s)
  | _ => Raise AttributeError
  end.

(** [m.get(v)] on a dict [m] with string keys: an unhashable key raises. *)
Definition lookup_in {A} (m : list (string * A)) (v : json) : result (option A) :=
  match v with
  | JStr s => Ok (assoc s m)
  | JList _ | JDict _ => Raise TypeError
  | _ => Ok None
  end.

(** [m[v]] on a dict [m] with string keys. *)
Definition subscript_in {A} (m : list (string * A)) (v : json) : result A :=
  match v with
  | JStr s =>
      match assoc s m with
      | Some a => Ok a
      | None => Raise (KeyError v)
      end
  | JList _ | JDict _ => Raise TypeError
  | _ => Raise (KeyError v)
  end.

End Json.

(** ** Units

    The unit registry only tags a magnitude; it accepts numbers and
    sequences and rejects the other values with a [TypeError]. *)

Inductive ureg : Type := bohr | per_bohr | eV | electron_volt.

Record quantity (A : Type) : Type := Quantity { magnitude : A; units : ureg }.
Arguments Quantity {A} magnitude units.
Arguments magnitude {A} q.
Arguments units {A} q.

Definition with_unit (v : json) (u : ureg) : result (quantity json) :=
  match v with
  | JInt _ | JFloat _ | JList _ => Ok (Quantity v u)
  | _ => Raise TypeError
  end.

(** ** The sections the parser populates

    A section created with [m_create] starts with every quantity unset and
    no sub-section; [empty] is that state.  A quantity keeps the value it is
    given (the schema's own checks are outside the parser).  Quantities the
    parser fills from the configuration hold the JSON value as it is. *)

Module Program.
Record t : Type := Make {
  name : option string;
  version : json;
  x_ocean_commit_hash : json;
  x_ocean_original_dft_code : option string }.
Definition empty : t := Make None JNull JNull None.
End Program.

Module Atoms.
Record t : Type := Make {
  lattice_vectors : option (quantity json);
  periodic : option (list bool);
  lattice_vectors_reciprocal : option (quantity json);
  labels : option (list string);
  positions : option (quantity json) }.
Definition empty : t := Make None None None None None.
End Atoms.

Module System.
Record t : Type := Make { atoms : option Atoms.t }.
Definition empty : t := Make None.
End System.

Module Photon.
Record t : Type := Make {
  multipole_type : option string;
  polarization : option (list Q);
  momentum_transfer : option (list Q);
  energy : option (quantity Q) }.
Definition empty : t := Make None None None None.
End Photon.

Module KMesh.
Record t : Type := Make { grid : json }.
Definition empty : t := Make JNull.
End KMesh.

Module CoreHole.
Record t : Type := Make {
  mode : option string;
  solver : option string;
  edge : option string;
  broadening : json }.
Definition empty : t := Make None None None JNull.
End CoreHole.

Module BSE.
Record t : Type := Make {
  type : option string;
  n_empty_states : json;
  screening_type : json;
  dielectric_infinity : json;
  n_empty_states_screening : json;
  k_mesh_screening : option KMesh.t;
  core_hole : option CoreHole.t }.
Definition empty : t := Make None JNull JNull JNull JNull None None.
End BSE.

Module Haydock.
(** x_ocean_core_haydock_parameters *)
Record t : Type := Make {
  x_ocean_converge_spacing : json;
  x_ocean_converge_thresh : json;
  x_ocean_niter : json }.
Definition empty : t := Make JNull JNull JNull.
End Haydock.

Module Gmres.
(** x_ocean_core_gmres_parameters: the attributes set by name, in order. *)
Record t : Type := Make { attrs : list (string * json) }.
Definition empty : t := Make [].
End Gmres.

Module BseParameters.
(** x_ocean_bse_parameters *)
Record t : Type := Make {
  x_ocean_screen_radius : json;
  x_ocean_xmesh : json;
  x_ocean_core_haydock_parameters : option Haydock.t;
  x_ocean_core_gmres_parameters : option Gmres.t }.
Definition empty : t := Make JNull JNull None None.
End BseParameters.

Module ScreenParameters.
(** x_ocean_screen_parameters: the attributes set by name, in order. *)
Record t : Type := Make { attrs : list (string * json) }.
Definition empty : t := Make [].
End ScreenParameters.

(** [setattr(section, name, value)]: a later value replaces an earlier one. *)
Fixpoint setattr (attrs : list (string * json)) (name : string) (v : json)
  : list (string * json) :=
  match attrs with
  | [] => [(name, v)]
  | (n, w) :: tl =>
      if String.eqb n name then (n, v) :: tl else (n, w) :: setattr tl name v
  end.

Module Method.
(** [starting_method_ref] refers to a method of the same run by its
    position in [run.method]. *)
Record t : Type := Make {
  starting_method_ref : option nat;
  photon : list Photon.t;
  k_mesh : option KMesh.t;
  bse : option BSE.t;
  x_ocean_bse_parameters : option BseParameters.t;
  x_ocean_screen_parameters : option ScreenParameters.t;
  x_ocean_edges : option (list (list Z)) }.
Definition empty : t := Make None [] None None None None None.
End Method.

(** A record of a lanczos file: one number, or a row of numbers. *)
Inductive lval : Type :=
| LNum (q : Q)
| LRow (l : list Q).

Module Spectra.
Record t : Type := Make {
  type : option string;
  n_energies : option nat;
  excitation_energies : option (quantity (list Q));
  intensities : option (list Q) }.
Definition empty : t := Make None None None None.
End Spectra.

Module Lanczos.
(** x_ocean_lanczos_results *)
Record t : Type := Make {
  x_ocean_n_tridiagonal_matrix : Z;
  x_ocean_scaling_factor : Q;
  x_ocean_tridiagonal_matrix : list (list lval);
  x_ocean_eigenvalues : list lval }.
End Lanczos.

Module Calculation.
(** [system_ref] and [method_ref] refer to a section of the same run by
    its position in [run.system] and [run.method]. *)
Record t : Type := Make {
  system_ref : option nat;
  method_ref : option nat;
  spectra : list Spectra.t;
  x_ocean_lanczos_results : option Lanczos.t }.
Definition empty : t := Make None None [] None.
End Calculation.

Module Run.
Record t : Type := Make {
  program : option Program.t;
  system : list System.t;
  method : list Method.t;
  calculation : list Calculation.t }.
Definition empty : t := Make None [] [] [].
End Run.

(** The section a workflow link points to. *)
Inductive section : Type :=
| SecSystem (s : System.t)
| SecMethod (m : Method.t)
| SecCalculation (c : Calculation.t).

Module Link.
Record t : Type := Make { name : string; section_ : section }.
End Link.

Module TaskReference.
Record t (W : Type) : Type := Make {
  task : W;
  inputs : list Link.t;
  outputs : list Link.t }.
Arguments Make {W} task inputs outputs.
Arguments task {W} t.
Arguments inputs {W} t.
Arguments outputs {W} t.
End TaskReference.

Module PhotonPolarization.
Record t (W : Type) : Type := Make {
  method : option Method.t;
  n_polarizations : nat;
  spectrum_polarization : list Spectra.t;
  inputs : list Link.t;
  outputs : list Link.t;
  tasks : list (TaskReference.t W) }.
Arguments Make {W} method n_polarizations spectrum_polarization inputs outputs tasks.
Arguments method {W} t.
Arguments n_polarizations {W} t.
Arguments spectrum_polarization {W} t.
Arguments inputs {W} t.
Arguments outputs {W} t.
Arguments tasks {W} t.
End PhotonPolarization.

(** What [archive.workflow2] can hold. *)
Inductive workflow : Type :=
| SinglePoint
| PhotonPolarizationWorkflow (w : PhotonPolarization.t workflow).

Module EntryArchive.
Record t : Type := Make {
  run : list Run.t;
  workflow2 : option workflow }.
Definition empty : t := Make [] None.
End EntryArchive.

(** ** The heap: archives and the log

    [_child_archives] maps an entry key to the archive of that child run;
    [archive] is the one passed to [parse].  Archives are mutable objects:
    [aref] names one of them, and two references are the same object exactly
    when they are equal. *)

Inductive severity : Type := LogError | LogWarning.

Record heap : Type := Heap {
  _child_archives : list (string * EntryArchive.t);
  archive : EntryArchive.t;
  log : list (severity * string) }.

Inductive aref : Type :=
| Root
| Child (key : string).

Definition aref_eqb (a b : aref) : bool :=
  match a, b with
  | Root, Root => true
  | Child k, Child k' => String.eqb k k'
  | _, _ => false
  end.

(** State and exceptions: a computation either returns a value and the new
    heap, or raises. *)
Definition M (A : Type) : Type := heap -> result (A * heap).

Module St.
Definition ret {A} (a : A) : M A := fun h => Ok (a, h).

Definition bind {A B} (m : M A) (k : A -> M B) : M B :=
  fun h => match m h with
           | Ok (a, h') => k a h'
           | Raise e => Raise e
           end.

Definition lift {A} (r : result A) : M A :=
  fun h => match r with
           | Ok a => Ok (a, h)
           | Raise e => Raise e
           end.

(** [for x in l: body(x)] *)
Fixpoint for_each {A} (l : list A) (body : A -> M unit) : M unit :=
  match l with
  | [] => ret tt
  | x :: tl => bind (body x) (fun _ => for_each tl body)
  end.
End St.

Declare Scope st_scope.
Delimit Scope st_scope with st.
Notation "x <- c1 ;; c2" := (St.bind c1 (fun x => c2))
  (at level 100, c1 at next level, right associativity) : st_scope.
Notation "c1 ;; c2" := (St.bind c1 (fun _ => c2))
  (at level 100, right associativity) : st_scope.

Fixpoint update_assoc {A} (k : string) (v : A) (kv : list (string * A))
  : list (string * A) :=
  match kv with
  | [] => []
  | (k', w) :: tl =>
      if String.eqb k k' then (k', v) :: tl else (k', w) :: update_assoc k v tl
  end.

(** The archive object behind a reference; [_child_archives.get(key)] is
    [None] for an unknown key, and any attribute access on it raises. *)
Definition get_archive (a : aref) : M EntryArchive.t :=
  fun h =>
    match a with
    | Root => Ok (archive h, h)
    | Child k =>
        match Json.assoc k (_child_archives h) with
        | Some arch => Ok (arch, h)
        | None => Raise AttributeError
        end
    end.

Definition set_archive (a : aref) (arch : EntryArchive.t) : M unit :=
  fun h =>
    match a with
    | Root => Ok (tt, Heap (_child_archives h) arch (log h))
    | Child k => Ok (tt, Heap (update_assoc k arch (_child_archives h)) (archive h) (log h))
    end.

Definition logger (s : severity) (msg : string) : M unit :=
  fun h => Ok (tt, Heap (_child_archives h) (archive h) (log h ++ [(s, msg)])).

(** [archive.m_create(Run)] *)
Definition create_run (a : aref) : M unit :=
  (arch <- get_archive a ;;
   set_archive a (EntryArchive.Make (EntryArchive.run arch ++ [Run.empty])
                                    (EntryArchive.workflow2 arch)))%st.

(** Work on [archive.run[-1]]: the section is fetched, changed by [f] and,
    being the same object, the change is seen through the archive. *)
Definition update_run (a : aref) (f : Run.t -> result Run.t) : M unit :=
  (arch <- get_archive a ;;
   sec_run <- St.lift (Py.index (EntryArchive.run arch) (-1)) ;;
   sec_run' <- St.lift (f sec_run) ;;
   set_archive a (EntryArchive.Make (removelast (EntryArchive.run arch) ++ [sec_run'])
                                    (EntryArchive.workflow2 arch)))%st.

Definition set_workflow2 (a : aref) (w : workflow) : M unit :=
  (arch <- get_archive a ;;
   set_archive a (EntryArchive.Make (EntryArchive.run arch) (Some w)))%st.

(** Position of the last element, for a reference to [l[-1]]. *)
Definition last_ref {A} (l : list A) : result nat :=
  match l with
  | [] => Raise IndexError
  | _ => Ok (length l - 1)%nat
  end.

(** ** Results of the text extractors

    The regular-expression and table readers are the host's; the parser
    sees their results.  A quantity that did not match is [None]. *)

Module PhotonResults.
Record t : Type := Make {
  operator : option string;
  vectors : option (list (list Q));
  photon_energy : option Q }.
End PhotonResults.

(** [rec[i]] on a record of a lanczos file; a record that is a single
    number cannot be indexed. *)
Definition lfield (r : lval) (i : Z) : result Q :=
  match r with
  | LRow l => Py.index l i
  | LNum _ => Raise TypeError
  end.

(** [data[:, k]] on a table, given by its rows: the column must exist in
    every row. *)
Definition column (k : nat) (t : list (list Q)) : result (list Q) :=
  Res.mapM (fun row => match nth_error row k with
                       | Some x => Ok x
                       | None => Raise IndexError
                       end) t.

(** [range(a, b)] *)
Definition range (a b : Z) : list Z :=
  map (fun k => a + Z.of_nat k) (seq 0 (Z.to_nat (b - a))).

(** [l.index(x)]: the first position holding [x]. *)
Fixpoint list_index (x : aref) (l : list aref) : nat :=
  match l with
  | [] => 0
  | y :: tl => if aref_eqb y x then 0 else S (list_index x tl)
  end.

(** ** [OceanParser.get_mainfile_keys] *)

Module StringOrder <: Orders.TotalLeBool.
Definition t := string.
Definition leb := String.leb.
Definition leb_total : forall a1 a2, leb a1 a2 = true \/ leb a2 a1 = true :=
  String.leb_total.
End StringOrder.

Module StringSort := Sort StringOrder.

Inductive mainfile_keys : Type :=
| MatchTrue
| Keys (keys : list string).

Definition get_mainfile_keys (listdir : list string) : mainfile_keys :=
  let absspct_files := filter (fun f => Py.startswith f "absspct") listdir in
  let absspct_files := StringSort.sort absspct_files in
  if (0 <? length absspct_files)%nat then Keys absspct_files else MatchTrue.

(** ** [OceanParser]: the tables of [__init__] *)

Definition _dft_code_map : list (string * string) :=
  [("qe", "QuantumESPRESSO"); ("abi", "ABINIT")].

Definition _type_bse_map : list (string * string) :=
  [("haydock", "lanczos-haydock"); ("gmres", "gmres")].

Definition mode_bse : list string := ["emission"; "absorption"].

Definition _core_level_map : list (string * string) :=
  [("[1, 0]", "K"); ("[2, 1]", "L23")].

Definition opt_str_eqb (o : option string) (s : string) : bool :=
  match o with
  | Some x => String.eqb x s
  | None => false
  end.

(** [setattr(sec, prefix + key, src(key))] for each key, in order. *)
Fixpoint setattrs_from (src : string -> result json) (prefix : string)
  (keys : list string) (attrs : list (string * json))
  : result (list (string * json)) :=
  match keys with
  | [] => Ok attrs
  | key :: tl =>
      let? v := src key in
      setattrs_from src prefix tl (setattr attrs (prefix ++ key) v)
  end.

(** [m_xpath]: what the path resolves to, read as a truth value. *)
Definition m_xpath_method0_photon (r : Run.t) : bool :=
  match Run.method r with
  | m :: _ => match Method.photon m with [] => false | _ => true end
  | [] => false
  end.

Definition m_xpath_program (r : Run.t) : bool :=
  match Run.program r with Some _ => true | None => false end.

Definition m_xpath_system (r : Run.t) : bool :=
  match Run.system r with [] => false | _ => true end.

Section OceanParser.

(** The directory of the main file and what the extractors find in its
    files; [chemical_symbols] is the table of element symbols. *)
Variable listdir : list string.
Variable photon_parser : string -> PhotonResults.t.
Variable spectra_parser : string -> option (list (list Q)).
Variable lanczos_parser : string -> option (list lval).
Variable chemical_symbols : list string.

(** [self.data], the loaded configuration. *)
Variable data : json.

(** *** parse_system *)

Definition atoms_labels (structure : json) : result (list string) :=
  let? typat := Json.get structure "typat" in
  let? sites := Json.iter typat in
  Res.mapM (fun n_at =>
              let? znucl := Json.get structure "znucl" in
              let? n := Json.as_index n_at in
              let? z := Json.getitem_int znucl (n - 1) in
              let? k := Json.to_int z in
              Py.index chemical_symbols k) sites.

(** [v[:]] *)
Definition slice_all (v : json) : result json :=
  match v with
  | JList _ | JStr _ => Ok v
  | _ => Raise TypeError
  end.

(** The atoms section filled from [data.get('structure')]. *)
Definition atoms_section (structure : json) : result Atoms.t :=
  let? avecs := Json.get structure "avecs" in
  let? lattice :=
    if Json.truthy avecs then
      let? lv := with_unit avecs bohr in
      let? _ := slice_all avecs in
      Ok (Some lv, Some [true; true; true])
    else Ok (None, None) in
  let? bvecs := Json.get structure "bvecs" in
  let? reciprocal :=
    if Json.truthy bvecs then
      let? rv := with_unit bvecs per_bohr in Ok (Some rv)
    else Ok None in
  let? znucl := Json.get structure "znucl" in
  let? typat := if Json.truthy znucl then Json.get structure "typat" else Ok JNull in
  let? labels :=
    if Json.truthy znucl && Json.truthy typat then
      let? ls := atoms_labels structure in Ok (Some ls)
    else Ok None in
  let? xangst := Json.get structure "xangst" in
  let? positions :=
    if Json.truthy xangst then
      let? p := with_unit xangst bohr in Ok (Some p)
    else Ok None in
  Ok (Atoms.Make (fst lattice) (snd lattice) reciprocal labels positions).

Definition add_system (sec_run : Run.t) (sec_atoms : Atoms.t) : Run.t :=
  Run.Make (Run.program sec_run)
           (Run.system sec_run ++ [System.Make (Some sec_atoms)])
           (Run.method sec_run) (Run.calculation sec_run).

Definition parse_system (path : string) (structure : json) : M unit :=
  update_run (Child path) (fun sec_run =>
    let? sec_atoms := atoms_section structure in
    Ok (add_system sec_run sec_atoms)).

(** *** parse_photon_polarization *)

Definition photon_files (path : string) : list string :=
  filter (fun f => Py.startswith f "photon"
                   && Py.endswith f (Py.str_slice_from path (-1))) listdir.

(** The photon section read from file [f].  Indexing a quantity that did
    not match, or multiplying it by a unit, raises a [TypeError]. *)
Definition parse_photon (f : string) : result Photon.t :=
  let r := photon_parser f in
  let multipole_type := PhotonResults.operator r in
  let? vectors0 :=
    match PhotonResults.vectors r with
    | Some vs => Py.index vs 0
    | None => Raise TypeError
    end in
  let? momentum_transfer :=
    if opt_str_eqb multipole_type "quad" || opt_str_eqb multipole_type "NRIXS"
       || opt_str_eqb multipole_type "qRaman"
    then
      match PhotonResults.vectors r with
      | Some vs => let? v := Py.index vs 1 in Ok (Some v)
      | None => Raise TypeError
      end
    else Ok None in
  let? energy :=
    match PhotonResults.photon_energy r with
    | Some e => Ok (Quantity e electron_volt)
    | None => Raise TypeError
    end in
  Ok (Photon.Make multipole_type (Some vectors0) momentum_transfer (Some energy)).

Definition photon_method (sec_photon : Photon.t) : Method.t :=
  Method.Make None [sec_photon] None None None None None.

Definition add_photon_method (sec_run : Run.t) (sec_photon : Photon.t) : Run.t :=
  Run.Make (Run.program sec_run) (Run.system sec_run)
           (Run.method sec_run ++ [photon_method sec_photon])
           (Run.calculation sec_run).

Definition parse_photon_polarization (path : string) : M unit :=
  update_run (Child path) (fun sec_run =>
    match photon_files path with
    | [] => Ok (add_photon_method sec_run Photon.empty)
    | photon_file0 :: _ =>
        let? sec_photon := parse_photon photon_file0 in
        Ok (add_photon_method sec_run sec_photon)
    end).

(** *** parse_method *)

Definition bse_get (key : string) : result json :=
  let? b := Json.getitem data "bse" in Json.get b key.

Definition screen_get (key : string) : result json :=
  let? s := Json.getitem data "screen" in Json.get s key.

Definition core_get (key : string) : result json :=
  let? b := Json.getitem data "bse" in
  let? c := Json.getitem b "core" in
  Json.get c key.

Definition haydock_parameters : result Haydock.t :=
  let? spacing :=
    (let? b := Json.getitem data "bse" in
     let? c := Json.getitem b "core" in
     let? hd := Json.getitem c "haydock" in
     let? cv := Json.getitem hd "converge" in
     Json.get cv "spacing") in
  let? thresh :=
    (let? b := Json.getitem data "bse" in
     let? c := Json.getitem b "core" in
     let? hd := Json.getitem c "haydock" in
     let? cv := Json.getitem hd "converge" in
     Json.get cv "thresh") in
  let? niter :=
    (let? b := Json.getitem data "bse" in
     let? c := Json.getitem b "core" in
     let? hd := Json.getitem c "haydock" in
     Json.get hd "niter") in
  Ok (Haydock.Make spacing thresh niter).

Definition gmres_keys : list string :=
  ["echamp"; "elist"; "erange"; "estyle"; "ffff"; "gprc"; "nloop"].

Definition gmres_parameters : result Gmres.t :=
  let? attrs :=
    setattrs_from
      (fun key =>
         let? b := Json.getitem data "bse" in
         let? c := Json.getitem b "core" in
         let? g := Json.getitem c "gmres" in
         Json.get g key)
      "x_ocean_" gmres_keys [] in
  Ok (Gmres.Make attrs).

Definition screen_keys : list string :=
  ["all_augment"; "augment"; "convertstyle"; "dft_energy_range";
   "inversionstyle"; "kshift"; "mimic_exciting_bands"; "shells"].

Definition screen_dicts : list string := ["core_offset"; "final"; "grid"].

Fixpoint screen_dict_attrs (dicts : list string) (attrs : list (string * json))
  : result (list (string * json)) :=
  match dicts with
  | [] => Ok attrs
  | keys :: tl =>
      let? s := Json.getitem data "screen" in
      let? d := Json.getitem s keys in
      let? subkeys := Json.keys d in
      let? attrs' :=
        setattrs_from
          (fun subkey =>
             let? s := Json.getitem data "screen" in
             let? d := Json.getitem s keys in
             Json.get d subkey)
          ("x_ocean_" ++ keys ++ "_") subkeys attrs in
      screen_dict_attrs tl attrs'
  end.

Definition screen_parameters : result ScreenParameters.t :=
  let? attrs := setattrs_from screen_get "x_ocean_" screen_keys [] in
  let? attrs := screen_dict_attrs screen_dicts attrs in
  let? flavor :=
    (let? s := Json.getitem data "screen" in
     let? m := Json.getitem s "model" in
     Json.get m "flavor") in
  Ok (ScreenParameters.Make (setattr attrs "x_ocean_model_flavor" flavor)).

(** [x.split(' ')] on an element of the edge list. *)
Definition split_edge (x : json) : result (list string) :=
  match x with
  | JStr s => Ok (Py.split_on " " s)
  | _ => Raise AttributeError
  end.

Definition parse_edges : result (list (list Z)) :=
  let? calc := Json.getitem data "calc" in
  let? es := Json.get_default calc "edges" (JList []) in
  let? xs := Json.iter es in
  let? eds := Res.mapM split_edge xs in
  Res.mapM (fun ed => Res.mapM Py.int_of_str ed) eds.

Definition core_hole (edges : list (list Z)) : result CoreHole.t :=
  let? strength := core_get "strength" in
  let? i := Json.as_index strength in
  let? mode := Py.index mode_bse i in
  let? solver_name := core_get "solver" in
  let? solver := Json.subscript_in _type_bse_map solver_name in
  let? edge0 := Py.index edges 0 in
  let? edge := Json.subscript_in _core_level_map
                 (JStr (Py.str_of_int_list (Py.slice_from edge0 (-2)))) in
  let? broaden := core_get "broaden" in
  Ok (CoreHole.Make (Some mode) (Some solver) (Some edge) broaden).

(** The method section built by [parse_method]; [starting] is the value
    of [starting_method_ref]. *)
Definition method_section (starting : option nat) : result Method.t :=
  (* KMesh section *)
  let? grid := bse_get "kmesh" in
  let sec_k_mesh := KMesh.Make grid in
  (* BSE section *)
  let? nbands := bse_get "nbands" in
  let? mode := screen_get "mode" in
  let? epsilon :=
    (let? s := Json.getitem data "structure" in Json.get s "epsilon") in
  let? screen_nbands := screen_get "nbands" in
  let? screen_kmesh := screen_get "kmesh" in
  let sec_bse :=
    BSE.Make (BSE.type BSE.empty) nbands mode epsilon screen_nbands
             (Some (KMesh.Make screen_kmesh)) None in
  (* code-specific parameters *)
  let? screen_radius := core_get "screen_radius" in
  let? xmesh := bse_get "xmesh" in
  let? solver_block :=
    if opt_str_eqb (BSE.type sec_bse) "lanczos-haydock" then
      let? sec_haydock := haydock_parameters in Ok (Some sec_haydock, None)
    else if opt_str_eqb (BSE.type sec_bse) "gmres" then
      let? sec_gmres := gmres_parameters in Ok (None, Some sec_gmres)
    else Ok (None, None) in
  let sec_bse_ocean :=
    BseParameters.Make screen_radius xmesh (fst solver_block) (snd solver_block) in
  (* screening *)
  let? sec_bse_screen := screen_parameters in
  (* edges *)
  let? edges := parse_edges in
  (* Core-Hole *)
  let? sec_core_hole := core_hole edges in
  Ok (Method.Make starting [] (Some sec_k_mesh)
        (Some (BSE.Make (BSE.type sec_bse) (BSE.n_empty_states sec_bse)
                 (BSE.screening_type sec_bse) (BSE.dielectric_infinity sec_bse)
                 (BSE.n_empty_states_screening sec_bse)
                 (BSE.k_mesh_screening sec_bse) (Some sec_core_hole)))
        (Some sec_bse_ocean) (Some sec_bse_screen) (Some edges)).

Definition add_method (sec_run : Run.t) (sec_method : Method.t) : Run.t :=
  Run.Make (Run.program sec_run) (Run.system sec_run)
           (Run.method sec_run ++ [sec_method]) (Run.calculation sec_run).

Definition parse_method (arch : aref) : M unit :=
  update_run arch (fun sec_run =>
    let created := add_method sec_run Method.empty in
    let starting := if m_xpath_method0_photon created then Some 0%nat else None in
    let? sec_method := method_section starting in
    Ok (add_method sec_run sec_method)).

(** *** parse_scc *)

Definition lanczos_files (path : string) : list string :=
  filter (fun f => Py.startswith f "abslanc"
                   && Py.endswith f (Py.str_slice_from path (-2))) listdir.

Definition parse_lanczos (data_lancz : list lval) : result Lanczos.t :=
  let? rec0 := Py.index data_lancz 0 in
  let? n0 := lfield rec0 0 in
  let n_dimension := Py.int_of_Q n0 + 1 in
  let? scaling := lfield rec0 1 in
  let? rec1 := Py.index data_lancz 1 in
  let? rows :=
    Res.mapM (fun n =>
                let? r := Py.index data_lancz n in
                let? a := lfield r 0 in
                let? b := lfield r 1 in
                Ok [LNum a; LNum b]) (range 2 (n_dimension + 1)) in
  let matrix := [rec1; LNum 0%Q] :: rows in
  Ok (Lanczos.Make n_dimension scaling matrix
        (Py.slice_from data_lancz (n_dimension + 1))).

Definition parse_spectra (path : string) : result Spectra.t :=
  let? calc := Json.getitem data "calc" in
  let? mode := Json.get calc "mode" in
  let? type := Json.upper mode in
  let? data_spct :=
    match spectra_parser path with
    | Some t => Ok t
    | None => Raise TypeError
    end in
  let? energies := column 0 data_spct in
  let? intensities := column 2 data_spct in
  Ok (Spectra.Make (Some type) (Some (length data_spct))
        (Some (Quantity energies eV)) (Some intensities)).

Definition lanczos_section (path : string) : result (option Lanczos.t) :=
  match lanczos_files path with
  | [] => Ok None
  | lanc_file0 :: _ =>
      let? data_lancz :=
        match lanczos_parser lanc_file0 with
        | Some d => Ok d
        | None => Raise TypeError
        end in
      let? l := parse_lanczos data_lancz in Ok (Some l)
  end.

Definition add_calculation (sec_run : Run.t) (sec_scc : Calculation.t) : Run.t :=
  Run.Make (Run.program sec_run) (Run.system sec_run) (Run.method sec_run)
           (Run.calculation sec_run ++ [sec_scc]).

Definition parse_scc (path : string) : M unit :=
  update_run (Child path) (fun sec_run =>
    let? system_ref := last_ref (Run.system sec_run) in
    let? method_ref := last_ref (Run.method sec_run) in
    (* absorption spectra (main calculation) *)
    let? sec_spectra := parse_spectra path in
    (* lanczos matrices *)
    let? sec_lanczos := lanczos_section path in
    Ok (add_calculation sec_run
          (Calculation.Make (Some system_ref) (Some method_ref)
                            [sec_spectra] sec_lanczos))).

(** *** parse_spectra_entries *)

Definition program_section : result Program.t :=
  let? version :=
    (let? v := Json.getitem data "version" in Json.get v ".") in
  let? hash :=
    (let? v := Json.getitem data "version" in Json.get v "hash") in
  let? dft_program :=
    (let? d := Json.getitem data "dft" in Json.get d "program") in
  let? dft_code := Json.lookup_in _dft_code_map dft_program in
  Ok (Program.Make (Some "OCEAN") version hash dft_code).

Definition parse_spectra_entries (path : string) : M unit :=
  (* For each spectra, we parse the data in one entry *)
  (create_run (Child path) ;;
   (* Program *)
   update_run (Child path) (fun sec_run =>
     let? sec_program := program_section in
     Ok (Run.Make (Some sec_program) (Run.system sec_run)
                  (Run.method sec_run) (Run.calculation sec_run))) ;;
   (* System *)
   structure <- St.lift (Json.get data "structure") ;;
   if negb (Json.truthy structure) then
     logger LogError "Error finding the structure in the main output file."
   else
     parse_system path structure ;;
     (* Method *)
     parse_photon_polarization path ;;
     parse_method (Child path) ;;
     (* Calculation *)
     parse_scc path ;;
     (* Workflow *)
     set_workflow2 (Child path) SinglePoint)%st.

(** *** parse_photon_workflow *)

(** One pass of the loop over [photon_archive]: the spectra, the outputs
    and the tasks collected so far are extended for [arch]. *)
Definition task_step (photon_archive : list aref) (input_structure : System.t)
  (acc : list Spectra.t * list Link.t * list (TaskReference.t workflow))
  (arch : aref) (h : heap)
  : result (list Spectra.t * list Link.t * list (TaskReference.t workflow)) :=
  let '(spectra, outputs, tasks) := acc in
  let? a := Res.bind (get_archive arch h) (fun p => Ok (fst p)) in
  (* a section object counts as true, so the tests on [input_structure],
     [input_photon_method] and [output_calculation] always pass *)
  match EntryArchive.workflow2 a with
  | Some w =>
      let index := list_index arch photon_archive in
      let? r := Py.index (EntryArchive.run a) (-1) in
      let? input_photon_method := Py.index (Run.method r) 0 in
      let inputs :=
        [Link.Make "Input structure" (SecSystem input_structure);
         Link.Make "Input photon parameters" (SecMethod input_photon_method)] in
      let? r' := Py.index (EntryArchive.run a) (-1) in
      let? output_calculation := Py.index (Run.calculation r') (-1) in
      let out :=
        Link.Make ("Output polarization "
                     ++ Py.str_of_int (Z.of_nat index + 1))
                  (SecCalculation output_calculation) in
      let? spectrum := Py.index (Calculation.spectra output_calculation) 0 in
      Ok (spectra ++ [spectrum], outputs ++ [out],
          tasks ++ [TaskReference.Make w inputs [out]])
  | None => Ok (spectra, outputs, tasks)
  end.

Fixpoint task_loop (photon_archive : list aref) (input_structure : System.t)
  (todo : list aref)
  (acc : list Spectra.t * list Link.t * list (TaskReference.t workflow))
  (h : heap)
  : result (list Spectra.t * list Link.t * list (TaskReference.t workflow)) :=
  match todo with
  | [] => Ok acc
  | arch :: tl =>
      let? acc' := task_step photon_archive input_structure acc arch h in
      task_loop photon_archive input_structure tl acc' h
  end.

Definition no_children_warning : string :=
  "Cannot resolve program and system from the first photon archive. "
  ++ "Generating empty sections.".

Definition parse_photon_workflow (photon_archive : list aref)
  (photon_workflow_archive : aref) : M unit :=
  (create_run photon_workflow_archive ;;
   match photon_archive with
   | first :: _ =>
       a0 <- get_archive first ;;
       r0 <- St.lift (Py.index (EntryArchive.run a0) (-1)) ;;
       if m_xpath_program r0 && m_xpath_system r0 then
         update_run photon_workflow_archive (fun sec_run =>
           Ok (Run.Make (Run.program r0) (Run.system r0)
                        (Run.method sec_run) (Run.calculation sec_run)))
       else St.ret tt
   | [] =>
       logger LogWarning no_children_warning ;;
       update_run photon_workflow_archive (fun sec_run =>
         Ok (Run.Make (Some Program.empty) (Run.system sec_run ++ [System.empty])
                      (Run.method sec_run) (Run.calculation sec_run)))
   end ;;
   parse_method photon_workflow_archive ;;
   wa <- get_archive photon_workflow_archive ;;
   sec_run <- St.lift (Py.index (EntryArchive.run wa) (-1)) ;;
   input_structure <- St.lift (Py.index (Run.system sec_run) (-1)) ;;
   input_method <- St.lift (Py.index (Run.method sec_run) (-1)) ;;
   let inputs :=
     [Link.Make "Input structure" (SecSystem input_structure);
      Link.Make "Input BSE methodology" (SecMethod input_method)] in
   res <- (fun h =>
             match task_loop photon_archive input_structure photon_archive
                     ([], [], []) h with
             | Ok r => Ok (r, h)
             | Raise e => Raise e
             end) ;;
   let '(spectra, outputs, tasks) := res in
   set_workflow2 photon_workflow_archive
     (PhotonPolarizationWorkflow
        (PhotonPolarization.Make (Some input_method) (length photon_archive)
           spectra inputs outputs tasks)))%st.

End OceanParser.

(** ** [OceanParser.parse]

    [loaded] is the outcome of [json.load(open(filepath))]: [None] when it
    raised.  The children are visited in the order of the keys of
    [_child_archives]. *)

Section Parse.

Variable listdir : list string.
Variable photon_parser : string -> PhotonResults.t.
Variable spectra_parser : string -> option (list (list Q)).
Variable lanczos_parser : string -> option (list lval).
Variable chemical_symbols : list string.

Definition parse (loaded : option json) : M unit :=
  match loaded with
  | None => logger LogError "Error opening json output file."
  | Some data =>
      (children <- (fun h => Ok (map fst (_child_archives h), h)) ;;
       St.for_each children
         (parse_spectra_entries listdir photon_parser spectra_parser
            lanczos_parser chemical_symbols data) ;;
       parse_photon_workflow data (map Child children) Root)%st
  end.

(** Modelled from the spec: the hosting platform, which is not part of
    this repository, asks [get_mainfile_keys] for the entry keys, creates
    one empty child archive per key, in the order of the keys, and one
    archive for the main entry, then calls [parse] (section 2: the
    child-run builder runs once per discovered polarization index;
    section 5: child runs are built in the order file discovery gives). *)
Definition initial_heap : heap :=
  let keys := match get_mainfile_keys listdir with
              | Keys ks => ks
              | MatchTrue => []
              end in
  Heap (map (fun k => (k, EntryArchive.empty)) keys) EntryArchive.empty [].

Definition run_parser (loaded : option json) : result heap :=
  match parse loaded initial_heap with
  | Ok (_, h) => Ok h
  | Raise e => Raise e
  end.

End Parse.

(** ** A small run, used to exercise the definitions *)

Module Sample.

Definition symbols : list string := ["X"; "H"; "He"; "Li"].

Definition vec (a b c : Z) : json := JList [JInt a; JInt b; JInt c].

Definition config (solver edge : string) (structure : json) : json :=
  JDict [
    ("version", JDict [(".", JStr "3.0.3"); ("hash", JStr "abc")]);
    ("dft", JDict [("program", JStr "qe")]);
    ("structure", structure);
    ("bse",
      JDict [("kmesh", vec 4 4 4); ("nbands", JInt 50); ("xmesh", vec 8 8 8);
             ("core",
               JDict [("screen_radius", JFloat (4 # 1)); ("strength", JInt 1);
                      ("solver", JStr solver); ("broaden", JFloat (1 # 10));
                      ("haydock",
                        JDict [("converge",
                                 JDict [("spacing", JInt 1);
                                        ("thresh", JFloat (1 # 1000))]);
                               ("niter", JInt 100)]);
                      ("gmres", JDict [("nloop", JInt 80)])])]);
    ("screen",
      JDict [("mode", JStr "grid"); ("nbands", JInt 100); ("kmesh", vec 2 2 2);
             ("core_offset", JDict [("enable", JBool true)]);
             ("final", JDict [("dr", JFloat (1 # 50))]);
             ("grid", JDict [("rmax", JInt 8)]);
             ("model", JDict [("flavor", JStr "LL")])]);
    ("calc", JDict [("mode", JStr "xas"); ("edges", JList [JStr edge])])].

Definition structure : json :=
  JDict [("avecs", JList [vec 1 0 0; vec 0 1 0; vec 0 0 1]);
         ("znucl", JList [JInt 3; JInt 1]);
         ("typat", JList [JInt 1; JInt 2; JInt 2]);
         ("xangst", JList [vec 0 0 0]);
         ("epsilon", JFloat (6 # 1))].

(** The listing is deliberately not in lexical order. *)
Definition dir : list string :=
  ["photon2"; "absspct_Li_02"; "photon1"; "abslanc_Li_01"; "absspct_Li_01";
   "ocean.json"].

Definition photons (f : string) : PhotonResults.t :=
  if String.eqb f "photon1" then
    PhotonResults.Make (Some "dipole") (Some [[1; 0; 0]]%Q) (Some (55 # 1))
  else
    PhotonResults.Make (Some "quad") (Some [[0; 1; 0]; [0; 0; 1]]%Q) (Some (55 # 1)).

Definition spectra_tab (f : string) : option (list (list Q)) :=
  Some [[1; 0; 5]; [2; 0; 7]]%Q.

Definition lanczos_rows : list lval :=
  [LRow [2; 3 # 2]%Q; LNum 9; LRow [1; 2]%Q; LRow [3; 4]%Q; LRow [5; 6]%Q; LNum 8].

Definition lanczos (f : string) : option (list lval) := Some lanczos_rows.

Definition run (listing : list string) (loaded : option json) : result heap :=
  run_parser listing photons spectra_tab lanczos symbols loaded.

End Sample.

(** ** Auxiliary definitions used in the statements *)

(** A row of a spectra table with at least three columns, its energy
    (column 0) and its intensity (column 2). *)
Definition table_row (r : Q * Q * Q * list Q) : list Q :=
  let '(e, x, i, rest) := r in e :: x :: i :: rest.

Definition row_energy (r : Q * Q * Q * list Q) : Q :=
  let '(e, _, _, _) := r in e.

Definition row_intensity (r : Q * Q * Q * list Q) : Q :=
  let '(_, _, i, _) := r in i.

(** A record of a lanczos file with at least two fields, and the matrix
    row made of its first two fields. *)
Definition lanczos_row (r : Q * Q * list Q) : lval :=
  let '(a, b, ext) := r in LRow (a :: b :: ext).

Definition matrix_row (r : Q * Q * list Q) : list lval :=
  let '(a, b, _) := r in [LNum a; LNum b].

(** No character of [s] is a comma or a closing bracket. *)
Fixpoint plain (s : string) : Prop :=
  match s with
  | EmptyString => True
  | String c tl => c <> ","%char /\ c <> "]"%char /\ plain tl
  end.

(** The heap after one change: of the main archive, of a child archive,
    of the log. *)
Definition set_root (h : heap) (a : EntryArchive.t) : heap :=
  Heap (_child_archives h) a (log h).

Definition set_child (h : heap) (k : string) (a : EntryArchive.t) : heap :=
  Heap (update_assoc k a (_child_archives h)) (archive h) (log h).

Definition add_log (h : heap) (s : severity) (msg : string) : heap :=
  Heap (_child_archives h) (archive h) (log h ++ [(s, msg)]).

(** The run a child archive receives, computed without the heap; the
    boolean tells whether the child was built to the end (the structure
    was found) or left after its program section. *)
Definition child_run (listdir : list string)
  (photon_parser : string -> PhotonResults.t)
  (spectra_parser : string -> option (list (list Q)))
  (lanczos_parser : string -> option (list lval))
  (chemical_symbols : list string) (data : json) (path : string)
  : result (Run.t * bool) :=
  let? sec_program := program_section data in
  let? structure := Json.get data "structure" in
  if negb (Json.truthy structure) then
    Ok (Run.Make (Some sec_program) [] [] [], false)
  else
    let? sec_atoms := atoms_section chemical_symbols structure in
    let? sec_photon :=
      match photon_files listdir path with
      | [] => Ok Photon.empty
      | photon_file0 :: _ => parse_photon photon_parser photon_file0
      end in
    let? sec_method := method_section data (Some 0%nat) in
    let? sec_spectra := parse_spectra spectra_parser data path in
    let? sec_lanczos := lanczos_section listdir lanczos_parser path in
    Ok (Run.Make (Some sec_program) [System.Make (Some sec_atoms)]
          [photon_method sec_photon; sec_method]
          [Calculation.Make (Some 0%nat) (Some 1%nat) [sec_spectra] sec_lanczos],
        true).

Definition structure_error : string :=
  "Error finding the structure in the main output file.".



(** The archive [a] of a child once the run [r] was added to it. *)
Definition child_after (a : EntryArchive.t) (r : Run.t) (full : bool)
  : EntryArchive.t :=
  EntryArchive.Make (EntryArchive.run a ++ [r])
    (if full then Some SinglePoint else EntryArchive.workflow2 a).

(** What the aggregation reads from a child built to the end. *)
Record child_info : Type := ChildInfo {
  ci_key : string;
  ci_program : Program.t;
  ci_system : System.t;
  ci_photon_method : Method.t;
  ci_calculation : Calculation.t;
  ci_spectrum : Spectra.t }.

(** The child archive of [i] in [h]: one run, built to the end. *)
Definition complete (h : heap) (i : child_info) : Prop :=
  exists m1,
    Json.assoc (ci_key i) (_child_archives h)
    = Some (EntryArchive.Make
              [Run.Make (Some (ci_program i)) [ci_system i]
                 [ci_photon_method i; m1] [ci_calculation i]]
              (Some SinglePoint))
    /\ Calculation.spectra (ci_calculation i) = [ci_spectrum i].

(** The output link and the task the loop of [parse_photon_workflow]
    makes for such a child. *)
Definition output_link (photon_archive : list aref) (i : child_info) : Link.t :=
  Link.Make
    ("Output polarization "
       ++ Py.str_of_int (Z.of_nat (list_index (Child (ci_key i)) photon_archive) + 1))
    (SecCalculation (ci_calculation i)).

Definition task_of (photon_archive : list aref) (input_structure : System.t)
  (i : child_info) : TaskReference.t workflow :=
  TaskReference.Make SinglePoint
    [Link.Make "Input structure" (SecSystem input_structure);
     Link.Make "Input photon parameters" (SecMethod (ci_photon_method i))]
    [output_link photon_archive i].

(** The test of [get_mainfile_keys]. *)
Definition is_spectra_file (f : string) : bool := Py.startswith f "absspct".

(** * Properties *)

(** ** Generic facts on the result monad and on the built-ins *)

Lemma mapM_ok_map {A B} (f : A -> result B) (g : A -> B) (l : list A) :
  (forall x, In x l -> f x = Ok (g x)) -> Res.mapM f l = Ok (map g l).
Proof.
  induction l as [|x tl IH]; intros H; simpl.
  - reflexivity.
  - rewrite (H x (or_introl eq_refl)), IH; [reflexivity|].
    intros y Hy. apply H. now right.
Qed.

Lemma mapM_seq_ok {A B} (f : Z -> result B) (h : nat -> Z) (g : A -> B)
  (rows : list A) :
  forall s,
    (forall j r, nth_error rows j = Some r -> f (h (s + j)%nat) = Ok (g r)) ->
    Res.mapM f (map h (seq s (length rows))) = Ok (map g rows).
Proof.
  induction rows as [|r tl IH]; intros s H; simpl.
  - reflexivity.
  - specialize (H 0%nat r eq_refl) as H0. rewrite Nat.add_0_r in H0.
    rewrite H0, (IH (S s)); [reflexivity|].
    intros j r' Hj. replace (S s + j)%nat with (s + S j)%nat by lia. now apply H.
Qed.

Lemma index_nth {A} (l : list A) (i : Z) (x : A) :
  0 <= i -> nth_error l (Z.to_nat i) = Some x -> Py.index l i = Ok x.
Proof.
  intros Hi Hn. unfold Py.index.
  assert (Hlt : (Z.to_nat i < length l)%nat)
    by (apply nth_error_Some; congruence).
  assert (E : (i <? 0) = false) by (apply Z.ltb_ge; lia).
  assert (E2 : (Z.of_nat (length l) <=? i) = false) by (apply Z.leb_gt; lia).
  cbv zeta. rewrite E. cbv beta iota. rewrite E, E2. cbn [orb]. now rewrite Hn.
Qed.

Lemma index_last {A} (l : list A) (x : A) : Py.index (l ++ [x]) (-1) = Ok x.
Proof.
  unfold Py.index. rewrite length_app. simpl length.
  replace (-1 <? 0) with true by reflexivity.
  destruct (Z.of_nat (length l + 1) + -1 <? 0) eqn:E; [apply Z.ltb_lt in E; lia|].
  destruct (Z.of_nat (length l + 1) <=? Z.of_nat (length l + 1) + -1) eqn:E2;
    [apply Z.leb_le in E2; lia|].
  simpl. replace (Z.to_nat (Z.of_nat (length l + 1) + -1)) with (length l) by lia.
  now rewrite nth_error_app2, Nat.sub_diag by lia.
Qed.

Lemma index_single {A} (x : A) : Py.index [x] (-1) = Ok x.
Proof. exact (index_last [] x). Qed.

Lemma index_head {A} (x : A) (l : list A) : Py.index (x :: l) 0 = Ok x.
Proof. apply index_nth; [lia | reflexivity]. Qed.

Lemma index_nil {A} (i : Z) : Py.index (@nil A) i = Raise IndexError.
Proof.
  unfold Py.index. cbn [length Z.of_nat Z.add].
  destruct (i <? 0) eqn:E; cbv beta iota zeta.
  - now rewrite E.
  - rewrite E. apply Z.ltb_ge in E.
    assert (H : (0 <=? i) = true) by (apply Z.leb_le; lia).
    now rewrite H.
Qed.

(** ** Spectra table *)

Lemma column_cons (k : nat) (row : list Q) (t : list (list Q)) :
  column k (row :: t)
  = match nth_error row k with
    | Some x => match column k t with
                | Ok ys => Ok (x :: ys)
                | Raise e => Raise e
                end
    | None => Raise IndexError
    end.
Proof. unfold column. simpl. now destruct (nth_error row k). Qed.

Lemma column_energy (rows : list (Q * Q * Q * list Q)) :
  column 0 (map table_row rows) = Ok (map row_energy rows).
Proof.
  induction rows as [|[[[e x] i] rest] tl IH]; [reflexivity|].
  cbn [map]. rewrite column_cons, IH. reflexivity.
Qed.

Lemma column_intensity (rows : list (Q * Q * Q * list Q)) :
  column 2 (map table_row rows) = Ok (map row_intensity rows).
Proof.
  induction rows as [|[[[e x] i] rest] tl IH]; [reflexivity|].
  cbn [map]. rewrite column_cons, IH. reflexivity.
Qed.

(** C7: a spectra table with rows (e, *, i, ...) yields the energies
    [e0, e1, ...] (column 0, tagged eV) and the intensities [i0, i1, ...]
    (column 2) in row order, and the number of energies is the row count.
    The other columns do not occur in the result.  The type of the
    spectrum is the upper-cased calculation mode, read first. *)
Theorem spectra_columns_roundtrip
  (spectra_parser : string -> option (list (list Q))) (data : json)
  (path : string) (rows : list (Q * Q * Q * list Q)) (type : string) :
  spectra_parser path = Some (map table_row rows) ->
  (let? calc := Json.getitem data "calc" in
   let? mode := Json.get calc "mode" in
   Json.upper mode) = Ok type ->
  parse_spectra spectra_parser data path
  = Ok (Spectra.Make (Some type) (Some (length rows))
          (Some (Quantity (map row_energy rows) eV))
          (Some (map row_intensity rows))).
Proof.
  intros Hsp Hty. unfold parse_spectra.
  destruct (Json.getitem data "calc") as [calc|e]; simpl in *; [|discriminate].
  destruct (Json.get calc "mode") as [mode|e]; simpl in *; [|discriminate].
  rewrite Hty, Hsp. simpl.
  rewrite column_energy, column_intensity. simpl.
  now rewrite length_map.
Qed.

Lemma spectra_columns_roundtrip_witness :
  parse_spectra
    (fun _ => Some (map table_row [(1, 0, 5, []); (2, 9, 7, [3])]%Q))
    (Sample.config "haydock" "1 1 0" Sample.structure) "absspct_Li_01"
  = Ok (Spectra.Make (Some "XAS") (Some 2%nat)
          (Some (Quantity [1; 2]%Q eV)) (Some [5; 7]%Q)).
Proof.
  apply (spectra_columns_roundtrip _ _ _ [(1, 0, 5, []); (2, 9, 7, [3])]%Q "XAS");
    reflexivity.
Defined.

(** ** Lanczos file *)

Lemma bind_ok_inv {A B} (r : result A) (k : A -> result B) (b : B) :
  Res.bind r k = Ok b -> exists a, r = Ok a /\ k a = Ok b.
Proof. destruct r as [a|e]; simpl; [eauto | discriminate]. Qed.

Ltac bind_inv H :=
  let a := fresh "v" in
  let E := fresh "E" in
  apply bind_ok_inv in H; destruct H as [a [E H]].

Lemma range_seq (a : Z) (n : nat) :
  range a (a + Z.of_nat n) = map (fun k => a + Z.of_nat k) (seq 0 n).
Proof. unfold range. now replace (Z.to_nat (a + Z.of_nat n - a)) with n by lia. Qed.

(** C3, amended: when the first field of the first record is n >= 0 (here
    the number of [rows]), the recorded dimension is n + 1 and the
    tridiagonal matrix takes the n + 1 records after the first: the record
    [rec1] whole as first column of the first row, whose second column is
    0.0 whatever the file holds, then the first two fields of the next n
    records.  Every record after those is an eigenvalue row. *)
Theorem lanczos_consumes_dimension_plus_one
  (n0 scaling : Q) (rest0 : list Q) (rec1 : lval)
  (rows : list (Q * Q * list Q)) (eig : list lval) :
  Py.int_of_Q n0 = Z.of_nat (length rows) ->
  parse_lanczos (LRow (n0 :: scaling :: rest0) :: rec1 :: map lanczos_row rows ++ eig)
  = Ok (Lanczos.Make (Z.of_nat (length rows) + 1) scaling
          ([rec1; LNum 0%Q] :: map matrix_row rows) eig).
Proof.
  intros Hn. unfold parse_lanczos.
  set (data := LRow (n0 :: scaling :: rest0) :: rec1 :: map lanczos_row rows ++ eig).
  assert (H0 : Py.index data 0 = Ok (LRow (n0 :: scaling :: rest0)))
    by (apply index_nth; [lia | reflexivity]).
  assert (H1 : Py.index data 1 = Ok rec1)
    by (apply index_nth; [lia | reflexivity]).
  rewrite H0. cbn [Res.bind].
  assert (F0 : lfield (LRow (n0 :: scaling :: rest0)) 0 = Ok n0)
    by (apply index_nth; [lia | reflexivity]).
  assert (F1 : lfield (LRow (n0 :: scaling :: rest0)) 1 = Ok scaling)
    by (apply index_nth; [lia | reflexivity]).
  rewrite F0, F1. cbn [Res.bind]. rewrite H1. cbn [Res.bind].
  rewrite Hn.
  replace (Z.of_nat (length rows) + 1 + 1) with (2 + Z.of_nat (length rows)) by lia.
  rewrite range_seq.
  rewrite (mapM_seq_ok _ (fun k => 2 + Z.of_nat k) matrix_row rows 0).
  - cbn [Res.bind]. f_equal. f_equal.
    unfold Py.slice_from.
    assert (E : (2 + Z.of_nat (length rows) <? 0) = false) by (apply Z.ltb_ge; lia).
    rewrite E.
    replace (Z.to_nat (2 + Z.of_nat (length rows))) with (S (S (length rows))) by lia.
    unfold data. cbn [skipn].
    rewrite <- (length_map lanczos_row rows).
    now rewrite skipn_app, skipn_all, Nat.sub_diag.
  - intros j [[a b] ext] Hj. cbn [Nat.add].
    assert (Hd : Py.index data (2 + Z.of_nat j) = Ok (LRow (a :: b :: ext))).
    { apply index_nth; [lia|].
      replace (Z.to_nat (2 + Z.of_nat j)) with (S (S j)) by lia.
      unfold data. cbn [nth_error].
      rewrite nth_error_app1
        by (rewrite length_map; apply nth_error_Some; congruence).
      rewrite nth_error_map, Hj. reflexivity. }
    rewrite Hd. cbn [Res.bind].
    assert (Fa : lfield (LRow (a :: b :: ext)) 0 = Ok a)
      by (apply index_nth; [lia | reflexivity]).
    assert (Fb : lfield (LRow (a :: b :: ext)) 1 = Ok b)
      by (apply index_nth; [lia | reflexivity]).
    now rewrite Fa, Fb.
Qed.

Lemma lanczos_consumes_dimension_plus_one_witness :
  parse_lanczos Sample.lanczos_rows
  = Ok (Lanczos.Make 3 (3 # 2)
          [[LNum 9; LNum 0]; [LNum 1; LNum 2]; [LNum 3; LNum 4]]%Q
          [LRow [5; 6]%Q; LNum 8]).
Proof.
  apply (lanczos_consumes_dimension_plus_one 2 (3 # 2) [] (LNum 9)
           [(1, 2, []); (3, 4, [])]%Q [LRow [5; 6]%Q; LNum 8]).
  reflexivity.
Defined.

(** The claim, as stated, at a file whose first field is 2: the matrix
    would have exactly 2 rows and the eigenvalues would start at the
    fourth record.  The parser takes 3 rows and starts the eigenvalues at
    the fifth record. *)
Lemma lanczos_n_records_counterexample :
  ~ (exists l,
        parse_lanczos Sample.lanczos_rows = Ok l
        /\ length (Lanczos.x_ocean_tridiagonal_matrix l) = 2%nat
        /\ Lanczos.x_ocean_eigenvalues l = skipn 3 Sample.lanczos_rows).
Proof.
  intros [l [H [Hlen _]]].
  vm_compute in H. inversion H; subst l. discriminate Hlen.
Qed.

(** ** Photon descriptor *)

(** C5, amended: with operator [dipole] the photon section is filled from
    the first vector alone, whatever follows it, and the momentum transfer
    stays unset; with operator [quad] the second vector is read as the
    momentum transfer, and when the file holds a single vector that read
    raises an [IndexError]. *)
Theorem photon_momentum_transfer
  (f : string) (v : list Q) (more : list (list Q)) (e : Q) :
  parse_photon
    (fun _ => PhotonResults.Make (Some "dipole") (Some (v :: more)) (Some e)) f
  = Ok (Photon.Make (Some "dipole") (Some v) None
          (Some (Quantity e electron_volt)))
  /\ (forall q,
         parse_photon
           (fun _ => PhotonResults.Make (Some "quad") (Some (v :: q :: more)) (Some e)) f
         = Ok (Photon.Make (Some "quad") (Some v) (Some q)
                 (Some (Quantity e electron_volt))))
  /\ (forall oe,
         parse_photon
           (fun _ => PhotonResults.Make (Some "quad") (Some [v]) oe) f
         = Raise IndexError).
Proof.
  assert (I0 : forall tl, Py.index (v :: tl) 0 = Ok v)
    by (intros; apply index_nth; [lia | reflexivity]).
  split; [|split].
  - unfold parse_photon. cbn [PhotonResults.operator PhotonResults.vectors
      PhotonResults.photon_energy]. rewrite I0. reflexivity.
  - intros q. unfold parse_photon. cbn [PhotonResults.operator
      PhotonResults.vectors PhotonResults.photon_energy]. rewrite I0.
    assert (I1 : Py.index (v :: q :: more) 1 = Ok q)
      by (apply index_nth; [lia | reflexivity]).
    cbn [Res.bind]. replace (opt_str_eqb (Some "quad") "quad") with true by reflexivity.
    cbn [orb]. rewrite I1. reflexivity.
  - intros oe. reflexivity.
Qed.

(** The claim, as stated, at a [quad] file with one vector: parsing would
    complete with the momentum transfer unset.  It raises instead, in the
    photon step and hence in the whole run. *)
Lemma photon_quad_single_vector_counterexample :
  let photon_parser :=
    fun _ : string =>
      PhotonResults.Make (Some "quad") (Some [[1; 0; 0]]%Q) (Some (55 # 1)) in
  (forall p, parse_photon photon_parser "photon1" <> Ok p)
  /\ parse_photon photon_parser "photon1" = Raise IndexError
  /\ run_parser Sample.dir photon_parser Sample.spectra_tab Sample.lanczos
       Sample.symbols (Some (Sample.config "haydock" "1 1 0" Sample.structure))
     = Raise IndexError.
Proof.
  cbv zeta. split; [|split].
  - intros p H. vm_compute in H. discriminate H.
  - reflexivity.
  - vm_compute. reflexivity.
Qed.

(** ** Solver-specific parameter blocks *)

Lemma method_section_blocks (data : json) (starting : option nat) (m : Method.t) :
  method_section data starting = Ok m ->
  exists bp ch bse,
    Method.x_ocean_bse_parameters m = Some bp
    /\ BseParameters.x_ocean_core_haydock_parameters bp = None
    /\ BseParameters.x_ocean_core_gmres_parameters bp = None
    /\ Method.bse m = Some bse
    /\ BSE.core_hole bse = Some ch
    /\ (exists edges, parse_edges data = Ok edges /\ core_hole data edges = Ok ch).
Proof.
  intros H. unfold method_section in H.
  repeat bind_inv H.
  match goal with
  | Hb : (if opt_str_eqb _ _ then _ else _) = Ok _ |- _ =>
      cbn in Hb; inversion Hb; subst
  end.
  inversion H; subst. cbn.
  eexists _, _, _. repeat split; eauto.
Qed.

(** C2: whatever the configuration says about the core solver, a method
    section that is built holds neither the haydock block nor the gmres
    block: the test reads the [type] of the BSE section, which is never
    set, while the solver name is mapped later, into the core-hole
    section. *)
Theorem solver_blocks_never_created
  (data : json) (starting : option nat) (m : Method.t) :
  method_section data starting = Ok m ->
  exists bp,
    Method.x_ocean_bse_parameters m = Some bp
    /\ BseParameters.x_ocean_core_haydock_parameters bp = None
    /\ BseParameters.x_ocean_core_gmres_parameters bp = None.
Proof.
  intros H. destruct (method_section_blocks _ _ _ H) as (bp & ch & bse & H1 & H2 & H3 & _).
  eauto.
Qed.

Lemma solver_blocks_never_created_witness :
  (exists m ch bse,
      method_section (Sample.config "haydock" "1 1 0" Sample.structure) None = Ok m
      /\ Method.bse m = Some bse /\ BSE.core_hole bse = Some ch
      /\ CoreHole.solver ch = Some "lanczos-haydock")
  /\ exists m bp,
      method_section (Sample.config "haydock" "1 1 0" Sample.structure) None = Ok m
      /\ Method.x_ocean_bse_parameters m = Some bp
      /\ BseParameters.x_ocean_core_haydock_parameters bp = None
      /\ BseParameters.x_ocean_core_gmres_parameters bp = None.
Proof.
  split.
  - eexists _, _, _. repeat split; vm_compute; reflexivity.
  - destruct (method_section (Sample.config "haydock" "1 1 0" Sample.structure) None)
      as [m|e] eqn:E; [|vm_compute in E; discriminate E].
    destruct (solver_blocks_never_created _ _ _ E) as [bp H].
    exists m, bp. split; [reflexivity | exact H].
Defined.

(** A solver name outside the table does raise, from [_type_bse_map]. *)
Example unknown_solver_raises :
  method_section (Sample.config "other" "1 1 0" Sample.structure) None
  = Raise (KeyError (JStr "other")).
Proof. vm_compute. reflexivity. Qed.

(** ** Printing a list of integers is injective *)

Lemma string_app_assoc (a b c : string) : ((a ++ b) ++ c = a ++ (b ++ c))%string.
Proof. induction a as [|x a IH]; simpl; [reflexivity | now rewrite IH]. Qed.

Lemma split_at_delim (x y : string) (c c' : ascii) (r r' : string) :
  plain x -> plain y ->
  c = ","%char \/ c = "]"%char -> c' = ","%char \/ c' = "]"%char ->
  (x ++ String c r = y ++ String c' r')%string ->
  x = y /\ c = c' /\ r = r'.
Proof.
  revert y. induction x as [|a x IH]; intros [|b y] Hx Hy Hc Hc' H; simpl in *.
  - now inversion H.
  - inversion H; subst. destruct Hy as [Hy1 [Hy2 _]]. destruct Hc; congruence.
  - inversion H; subst. destruct Hx as [Hx1 [Hx2 _]]. destruct Hc'; congruence.
  - inversion H; subst.
    destruct Hx as [_ [_ Hx]]. destruct Hy as [_ [_ Hy]].
    destruct (IH y Hx Hy Hc Hc' H2) as [-> [-> ->]]. auto.
Qed.

Lemma plain_uint (d : Decimal.uint) : plain (NilEmpty.string_of_uint d).
Proof. induction d; simpl; repeat split; auto; discriminate. Qed.

Lemma plain_str_of_int (z : Z) : plain (Py.str_of_int z).
Proof.
  unfold Py.str_of_int, NilZero.string_of_int, NilZero.string_of_uint.
  destruct (Z.to_int z) as [d|d]; destruct d; simpl;
    repeat split; try discriminate; auto using plain_uint.
Qed.

Lemma str_of_int_nonempty (z : Z) : Py.str_of_int z <> "".
Proof.
  unfold Py.str_of_int, NilZero.string_of_int, NilZero.string_of_uint.
  destruct (Z.to_int z) as [d|d]; destruct d; simpl; discriminate.
Qed.

Lemma to_int_not_nil (z : Z) :
  Z.to_int z <> Decimal.Pos Decimal.Nil /\ Z.to_int z <> Decimal.Neg Decimal.Nil.
Proof.
  split; intros H; pose proof (DecimalZ.of_to z) as Hz; rewrite H in Hz;
    cbn in Hz; subst z; discriminate H.
Qed.

Lemma str_of_int_inj (a b : Z) : Py.str_of_int a = Py.str_of_int b -> a = b.
Proof.
  unfold Py.str_of_int. intros H.
  destruct (to_int_not_nil a) as [Ha1 Ha2]. destruct (to_int_not_nil b) as [Hb1 Hb2].
  pose proof (NilZero.isi _ Ha1 Ha2) as Ia. pose proof (NilZero.isi _ Hb1 Hb2) as Ib.
  rewrite H in Ia. rewrite Ia in Ib. inversion Ib as [Hab].
  rewrite <- (DecimalZ.of_to a), <- (DecimalZ.of_to b). now rewrite Hab.
Qed.

Lemma join_close (x : string) (tl : list string) :
  (Py.join ", " (x :: tl) ++ "]"
   = x ++ match tl with
          | [] => "]"
          | _ => String "," (String " " (Py.join ", " tl ++ "]"))
          end)%string.
Proof.
  destruct tl as [|y tl]; [reflexivity|].
  cbn [Py.join]. now rewrite string_app_assoc.
Qed.

Lemma join_close_inj (l1 l2 : list Z) :
  (Py.join ", " (map Py.str_of_int l1) ++ "]"
   = Py.join ", " (map Py.str_of_int l2) ++ "]")%string ->
  l1 = l2.
Proof.
  revert l2. induction l1 as [|a l1 IH]; intros [|b l2] H.
  - reflexivity.
  - exfalso. cbn [map] in H. rewrite join_close in H.
    pose proof (plain_str_of_int b) as Pb. pose proof (str_of_int_nonempty b) as Nb.
    destruct (Py.str_of_int b) as [|c s]; [congruence|].
    cbn in H. inversion H; subst. destruct Pb as [_ [Pb _]]. congruence.
  - exfalso. cbn [map] in H. rewrite join_close in H.
    pose proof (plain_str_of_int a) as Pa. pose proof (str_of_int_nonempty a) as Na.
    destruct (Py.str_of_int a) as [|c s]; [congruence|].
    cbn in H. inversion H; subst. destruct Pa as [_ [Pa _]]. congruence.
  - cbn [map] in H. rewrite !join_close in H.
    destruct l1 as [|a' l1]; destruct l2 as [|b' l2]; cbn [map] in H.
    + apply split_at_delim in H; auto using plain_str_of_int.
      destruct H as [H _]. now rewrite (str_of_int_inj _ _ H).
    + apply split_at_delim in H; auto using plain_str_of_int.
      destruct H as [_ [H _]]. discriminate H.
    + apply split_at_delim in H; auto using plain_str_of_int.
      destruct H as [_ [H _]]. discriminate H.
    + apply split_at_delim in H; auto using plain_str_of_int.
      destruct H as [H [_ H']]. inversion H' as [H''].
      rewrite (str_of_int_inj _ _ H). f_equal.
      apply IH. exact H''.
Qed.

Lemma str_of_int_list_inj (l1 l2 : list Z) :
  Py.str_of_int_list l1 = Py.str_of_int_list l2 -> l1 = l2.
Proof.
  unfold Py.str_of_int_list. intros H. cbn in H. inversion H as [H'].
  now apply join_close_inj.
Qed.

(** ** Running the stateful steps *)

Ltac heap_simpl :=
  cbn [set_root set_child add_log archive _child_archives log
       EntryArchive.run EntryArchive.workflow2 EntryArchive.empty
       Run.program Run.system Run.method Run.calculation Run.empty
       add_method add_system add_calculation add_photon_method photon_method
       m_xpath_method0_photon m_xpath_program m_xpath_system
       Method.photon Method.empty app].

Lemma bind_run {A B} (m : M A) (k : A -> M B) (h : heap) :
  St.bind m k h = match m h with
                  | Ok (a, h') => k a h'
                  | Raise e => Raise e
                  end.
Proof. reflexivity. Qed.

Lemma create_run_root (h : heap) :
  create_run Root h
  = Ok (tt, set_root h (EntryArchive.Make (EntryArchive.run (archive h) ++ [Run.empty])
                          (EntryArchive.workflow2 (archive h)))).
Proof. reflexivity. Qed.

Lemma update_run_root (f : Run.t -> result Run.t) (h : heap)
  (rs : list Run.t) (r : Run.t) :
  EntryArchive.run (archive h) = rs ++ [r] ->
  update_run Root f h
  = match f r with
    | Ok r' => Ok (tt, set_root h (EntryArchive.Make (rs ++ [r'])
                                   (EntryArchive.workflow2 (archive h))))
    | Raise e => Raise e
    end.
Proof.
  intros Hr. unfold update_run. rewrite !bind_run. cbn [get_archive].
  rewrite bind_run. rewrite Hr. unfold St.lift at 1. rewrite index_last.
  rewrite bind_run. unfold St.lift. destruct (f r) as [r'|e]; [|reflexivity].
  cbn [set_archive]. now rewrite removelast_last.
Qed.

Lemma update_run_child (f : Run.t -> result Run.t) (h : heap) (k : string)
  (a : EntryArchive.t) (rs : list Run.t) (r : Run.t) :
  Json.assoc k (_child_archives h) = Some a ->
  EntryArchive.run a = rs ++ [r] ->
  update_run (Child k) f h
  = match f r with
    | Ok r' => Ok (tt, set_child h k (EntryArchive.Make (rs ++ [r'])
                                      (EntryArchive.workflow2 a)))
    | Raise e => Raise e
    end.
Proof.
  intros Ha Hr. unfold update_run. rewrite !bind_run. cbn [get_archive].
  rewrite Ha. rewrite bind_run. rewrite Hr. unfold St.lift at 1. rewrite index_last.
  rewrite bind_run. unfold St.lift. destruct (f r) as [r'|e]; [|reflexivity].
  cbn [set_archive]. now rewrite removelast_last.
Qed.

Lemma method_section_starting (data : json) (s : option nat) :
  method_section data s
  = match method_section data None with
    | Ok m => Ok (Method.Make s (Method.photon m) (Method.k_mesh m) (Method.bse m)
                    (Method.x_ocean_bse_parameters m)
                    (Method.x_ocean_screen_parameters m) (Method.x_ocean_edges m))
    | Raise e => Raise e
    end.
Proof.
  unfold method_section.
  repeat match goal with
         | |- context [Res.bind ?r _] => destruct r; cbn [Res.bind]; try reflexivity
         end.
Qed.

Lemma method_section_raise (data : json) (s s' : option nat) (e : exn) :
  method_section data s = Raise e -> method_section data s' = Raise e.
Proof.
  rewrite (method_section_starting data s), (method_section_starting data s').
  destruct (method_section data None); [discriminate | auto].
Qed.

Lemma parse_method_root (data : json) (h : heap) (rs : list Run.t) (r : Run.t) :
  EntryArchive.run (archive h) = rs ++ [r] ->
  parse_method data Root h
  = match method_section data
            (if m_xpath_method0_photon (add_method r Method.empty)
             then Some 0%nat else None) with
    | Ok m => Ok (tt, set_root h (EntryArchive.Make (rs ++ [add_method r m])
                                   (EntryArchive.workflow2 (archive h))))
    | Raise e => Raise e
    end.
Proof.
  intros Hr. unfold parse_method. rewrite (update_run_root _ h rs r Hr).
  cbv zeta. now destruct (method_section data _).
Qed.

(** ** Aggregation without children *)

(** What a method section that is built holds, read by read. *)
Lemma method_section_inv (data : json) (starting : option nat) (m : Method.t) :
  method_section data starting = Ok m ->
  exists grid nbands mode structure epsilon screen_nbands screen_kmesh
         screen_radius xmesh sp edges ch,
    bse_get data "kmesh" = Ok grid
    /\ bse_get data "nbands" = Ok nbands
    /\ screen_get data "mode" = Ok mode
    /\ Json.getitem data "structure" = Ok structure
    /\ Json.get structure "epsilon" = Ok epsilon
    /\ screen_get data "nbands" = Ok screen_nbands
    /\ screen_get data "kmesh" = Ok screen_kmesh
    /\ core_get data "screen_radius" = Ok screen_radius
    /\ bse_get data "xmesh" = Ok xmesh
    /\ screen_parameters data = Ok sp
    /\ parse_edges data = Ok edges
    /\ core_hole data edges = Ok ch
    /\ m = Method.Make starting [] (Some (KMesh.Make grid))
             (Some (BSE.Make None nbands mode epsilon screen_nbands
                      (Some (KMesh.Make screen_kmesh)) (Some ch)))
             (Some (BseParameters.Make screen_radius xmesh None None))
             (Some sp) (Some edges).
Proof.
  intros H. unfold method_section in H.
  apply bind_ok_inv in H. destruct H as (grid & Hgrid & H).
  apply bind_ok_inv in H. destruct H as (nbands & Hnbands & H).
  apply bind_ok_inv in H. destruct H as (mode & Hmode & H).
  apply bind_ok_inv in H. destruct H as (epsilon & Heps & H).
  apply bind_ok_inv in Heps. destruct Heps as (structure & Hstr & Heps).
  apply bind_ok_inv in H. destruct H as (screen_nbands & Hsnb & H).
  apply bind_ok_inv in H. destruct H as (screen_kmesh & Hskm & H).
  apply bind_ok_inv in H. destruct H as (screen_radius & Hrad & H).
  apply bind_ok_inv in H. destruct H as (xmesh & Hxm & H).
  apply bind_ok_inv in H. destruct H as (blocks & Hb & H).
  apply bind_ok_inv in H. destruct H as (sp & Hsp & H).
  apply bind_ok_inv in H. destruct H as (edges & Hedges & H).
  apply bind_ok_inv in H. destruct H as (ch & Hch & H).
  cbn in Hb. inversion Hb; subst blocks. inversion H; subst m.
  exists grid, nbands, mode, structure, epsilon, screen_nbands, screen_kmesh,
    screen_radius, xmesh, sp, edges, ch.
  repeat (split; [assumption|]). reflexivity.
Qed.

(** C6, amended: with an empty child sequence the aggregation raises
    exactly when the method section cannot be built from the
    configuration, and then with the exception of the method step.
    Otherwise it returns normally: it logs one warning, the run gets an
    empty program section and one empty system section and the method
    section, and the workflow has that method, the two inputs, no task, no
    output and no spectrum.  The method section is the one the
    configuration gives: the k-mesh is [bse.kmesh]; the BSE section holds
    [bse.nbands], [screen.mode], [structure.epsilon], [screen.nbands], the
    screening mesh [screen.kmesh] and the core hole of the edge list; the
    code-specific parameters are [bse.core.screen_radius] and [bse.xmesh],
    without a solver block; then the screening attributes and the edges.
    It has no starting method and no photon. *)
Theorem aggregation_without_children (data : json) (h : heap) :
  parse_photon_workflow data [] Root h
  = match method_section data None with
    | Ok m =>
        Ok (tt,
            Heap (_child_archives h)
              (EntryArchive.Make
                 (EntryArchive.run (archive h)
                    ++ [Run.Make (Some Program.empty) [System.empty] [m] []])
                 (Some (PhotonPolarizationWorkflow
                          (PhotonPolarization.Make (Some m) 0 []
                             [Link.Make "Input structure" (SecSystem System.empty);
                              Link.Make "Input BSE methodology" (SecMethod m)]
                             [] []))))
              (log h ++ [(LogWarning, no_children_warning)]))
    | Raise e => Raise e
    end
  /\ forall m,
      method_section data None = Ok m ->
      exists grid nbands mode structure epsilon screen_nbands screen_kmesh
             screen_radius xmesh sp edges ch,
        bse_get data "kmesh" = Ok grid
        /\ bse_get data "nbands" = Ok nbands
        /\ screen_get data "mode" = Ok mode
        /\ Json.getitem data "structure" = Ok structure
        /\ Json.get structure "epsilon" = Ok epsilon
        /\ screen_get data "nbands" = Ok screen_nbands
        /\ screen_get data "kmesh" = Ok screen_kmesh
        /\ core_get data "screen_radius" = Ok screen_radius
        /\ bse_get data "xmesh" = Ok xmesh
        /\ screen_parameters data = Ok sp
        /\ parse_edges data = Ok edges
        /\ core_hole data edges = Ok ch
        /\ m = Method.Make None [] (Some (KMesh.Make grid))
                 (Some (BSE.Make None nbands mode epsilon screen_nbands
                          (Some (KMesh.Make screen_kmesh)) (Some ch)))
                 (Some (BseParameters.Make screen_radius xmesh None None))
                 (Some sp) (Some edges).
Proof.
  split; [|intros m Hm; exact (method_section_inv data None m Hm)].
  unfold parse_photon_workflow.
  rewrite bind_run, create_run_root.
  rewrite bind_run, bind_run. unfold logger at 1.
  erewrite update_run_root by reflexivity. heap_simpl.
  rewrite bind_run. erewrite parse_method_root by reflexivity. heap_simpl.
  destruct (method_section data None) as [m|e]; [|reflexivity].
  rewrite bind_run. cbn [get_archive]. heap_simpl.
  rewrite bind_run. unfold St.lift at 1. rewrite index_last.
  reflexivity.
Qed.

Lemma aggregation_without_children_witness :
  exists m h',
    parse_photon_workflow (Sample.config "haydock" "1 1 0" Sample.structure) [] Root
      (Heap [] EntryArchive.empty [])
    = Ok (tt, h')
    /\ EntryArchive.run (archive h')
       = [Run.Make (Some Program.empty) [System.empty] [m] []]
    /\ log h' = [(LogWarning, no_children_warning)]
    /\ Method.k_mesh m = Some (KMesh.Make (Sample.vec 4 4 4)).
Proof.
  destruct (method_section (Sample.config "haydock" "1 1 0" Sample.structure) None)
    as [m|e] eqn:E; [|vm_compute in E; discriminate E].
  pose proof (aggregation_without_children
                (Sample.config "haydock" "1 1 0" Sample.structure)
                (Heap [] EntryArchive.empty [])) as [H Hm].
  rewrite E in H.
  destruct (Hm m E) as (grid & ? & ? & ? & ? & ? & ? & ? & ? & ? & ? & ?
                        & Hg & _ & _ & _ & _ & _ & _ & _ & _ & _ & _ & _ & Hmk).
  exists m. eexists. split; [exact H|].
  split; [reflexivity|]. split; [reflexivity|].
  rewrite Hmk. cbn [Method.k_mesh]. vm_compute in Hg. now inversion Hg.
Defined.

(** The claim, as stated, at the empty configuration [{}], which loads:
    the aggregation over no child raises the [KeyError] of the first read
    of the method step, [data['bse']]. *)
Lemma aggregation_raises_on_empty_configuration_counterexample :
  parse_photon_workflow (JDict []) [] Root (Heap [] EntryArchive.empty [])
  = Raise (KeyError (JStr "bse")).
Proof. vm_compute. reflexivity. Qed.

(** ** A first child without program or system *)

Lemma get_child_run (h : heap) (k : string) (a : EntryArchive.t) :
  Json.assoc k (_child_archives h) = Some a ->
  get_archive (Child k) h = Ok (a, h).
Proof. intros Ha. cbn [get_archive]. now rewrite Ha. Qed.

(** C9: when the child sequence is not empty and the last run of its
    first child has no program section or no system section, nothing is
    copied and no placeholder is created (that branch is the one of the
    empty sequence): the run of the workflow archive keeps an empty system
    list, and once the method section is built the read of
    [sec_run.system[-1]] raises an [IndexError].  An error of the method
    step itself comes first. *)
Theorem aggregation_first_child_incomplete
  (data : json) (k : string) (rest : list aref) (h : heap)
  (a0 : EntryArchive.t) (rs : list Run.t) (r0 : Run.t) :
  Json.assoc k (_child_archives h) = Some a0 ->
  EntryArchive.run a0 = rs ++ [r0] ->
  Run.program r0 = None \/ Run.system r0 = [] ->
  parse_photon_workflow data (Child k :: rest) Root h
  = match method_section data None with
    | Ok _ => Raise IndexError
    | Raise e => Raise e
    end.
Proof.
  intros Ha Hr Hlack. unfold parse_photon_workflow.
  rewrite bind_run, create_run_root.
  rewrite bind_run, bind_run.
  rewrite (get_child_run _ k a0) by exact Ha.
  rewrite bind_run. unfold St.lift at 1. rewrite Hr, index_last.
  assert (Hc : m_xpath_program r0 && m_xpath_system r0 = false).
  { unfold m_xpath_program, m_xpath_system.
    destruct Hlack as [-> | ->]; [reflexivity | now destruct (Run.program r0)]. }
  rewrite Hc. unfold St.ret at 1.
  rewrite bind_run. erewrite parse_method_root by reflexivity. heap_simpl.
  destruct (method_section data None) as [m|e]; [|reflexivity].
  rewrite bind_run. cbn [get_archive]. heap_simpl.
  rewrite bind_run. unfold St.lift at 1. rewrite index_last.
  rewrite bind_run. unfold St.lift at 1. heap_simpl. now rewrite index_nil.
Qed.

Lemma aggregation_first_child_incomplete_witness :
  parse_photon_workflow (Sample.config "haydock" "1 1 0" Sample.structure)
    [Child "absspct_Li_01"] Root
    (Heap [("absspct_Li_01",
            EntryArchive.Make [Run.Make (Some Program.empty) [] [] []] None)]
          EntryArchive.empty [])
  = Raise IndexError.
Proof.
  rewrite (aggregation_first_child_incomplete _ "absspct_Li_01" []
             _ (EntryArchive.Make [Run.Make (Some Program.empty) [] [] []] None)
             [] (Run.Make (Some Program.empty) [] [] []));
    [reflexivity | reflexivity | reflexivity | right; reflexivity].
Defined.

(** The same state is reached by the parser itself: a configuration whose
    structure is an empty dict makes every child stop after its program
    section, and the aggregation then fails on the missing system. *)
Example run_with_empty_structure :
  Sample.run Sample.dir (Some (Sample.config "haydock" "1 1 0" (JDict [])))
  = Raise IndexError.
Proof. vm_compute. reflexivity. Qed.

(** ** Errors of the method step are not caught *)

Lemma parse_method_root_raise (data : json) (h : heap) (rs : list Run.t)
  (r : Run.t) (s : option nat) (e : exn) :
  EntryArchive.run (archive h) = rs ++ [r] ->
  method_section data s = Raise e ->
  parse_method data Root h = Raise e.
Proof.
  intros Hr He. rewrite (parse_method_root data h rs r Hr).
  now rewrite (method_section_raise _ _ _ _ He).
Qed.

Lemma parse_photon_workflow_raises (data : json) (s : option nat) (e : exn)
  (l : list aref) (h : heap) :
  method_section data s = Raise e ->
  exists e', parse_photon_workflow data l Root h = Raise e'.
Proof.
  intros He. unfold parse_photon_workflow.
  rewrite bind_run, create_run_root. rewrite bind_run.
  destruct l as [|first rest].
  - rewrite bind_run. unfold logger at 1.
    erewrite update_run_root by reflexivity. heap_simpl.
    rewrite bind_run.
    erewrite parse_method_root_raise; [eauto | reflexivity | exact He].
  - rewrite bind_run.
    destruct (get_archive first _) as [[a0 h1]|e1] eqn:Hg; [|eauto].
    assert (Hh1 : h1 = set_root h
                         (EntryArchive.Make (EntryArchive.run (archive h) ++ [Run.empty])
                            (EntryArchive.workflow2 (archive h)))).
    { destruct first; cbn [get_archive] in Hg.
      - now inversion Hg.
      - destruct (Json.assoc key _); now inversion Hg. }
    subst h1. rewrite bind_run. unfold St.lift at 1.
    destruct (Py.index (EntryArchive.run a0) (-1)) as [r0|e1]; [|eauto].
    destruct (m_xpath_program r0 && m_xpath_system r0).
    + erewrite update_run_root by reflexivity. heap_simpl.
      rewrite bind_run.
      erewrite parse_method_root_raise; [eauto | reflexivity | exact He].
    + unfold St.ret at 1. rewrite bind_run.
      erewrite parse_method_root_raise; [eauto | reflexivity | exact He].
Qed.

Lemma parse_raises (listdir : list string) (photon_parser : string -> PhotonResults.t)
  (spectra_parser : string -> option (list (list Q)))
  (lanczos_parser : string -> option (list lval)) (chemical_symbols : list string)
  (data : json) (s : option nat) (e : exn) (h : heap) :
  method_section data s = Raise e ->
  exists e',
    parse listdir photon_parser spectra_parser lanczos_parser chemical_symbols
      (Some data) h = Raise e'.
Proof.
  intros He. unfold parse. rewrite bind_run, bind_run.
  destruct (St.for_each _ _ _) as [[u h']|e1]; [|eauto].
  eapply parse_photon_workflow_raises. exact He.
Qed.

(** ** Core-hole edge label *)

Lemma edge_lookup_unmapped (pair : list Z) :
  pair <> [1; 0] -> pair <> [2; 1] ->
  Json.subscript_in _core_level_map (JStr (Py.str_of_int_list pair))
  = Raise (KeyError (JStr (Py.str_of_int_list pair))).
Proof.
  intros H1 H2. unfold Json.subscript_in, _core_level_map. cbn [Json.assoc].
  destruct (String.eqb_spec (Py.str_of_int_list pair) "[1, 0]") as [E|_].
  - exfalso. apply H1. apply str_of_int_list_inj. exact E.
  - destruct (String.eqb_spec (Py.str_of_int_list pair) "[2, 1]") as [E|_].
    + exfalso. apply H2. apply str_of_int_list_inj. exact E.
    + reflexivity.
Qed.

Lemma core_hole_edge (data : json) (e0 : list Z) (rest : list (list Z)) (ch : CoreHole.t) :
  core_hole data (e0 :: rest) = Ok ch ->
  Json.subscript_in _core_level_map
    (JStr (Py.str_of_int_list (Py.slice_from e0 (-2))))
  = match CoreHole.edge ch with
    | Some lbl => Ok lbl
    | None => Raise TypeError
    end.
Proof.
  intros H. unfold core_hole in H.
  assert (I0 : Py.index (e0 :: rest) 0 = Ok e0)
    by (apply index_nth; [lia | reflexivity]).
  rewrite I0 in H. cbn [Res.bind] in H.
  repeat bind_inv H. inversion H; subst ch. cbn [CoreHole.edge].
  assumption.
Qed.

Lemma core_hole_unmapped (data : json) (e0 : list Z) (rest : list (list Z)) :
  Py.slice_from e0 (-2) <> [1; 0] -> Py.slice_from e0 (-2) <> [2; 1] ->
  (forall ch, core_hole data (e0 :: rest) <> Ok ch)
  /\ (forall ch0,
         core_hole data [[1; 0]] = Ok ch0 ->
         core_hole data (e0 :: rest)
         = Raise (KeyError (JStr (Py.str_of_int_list (Py.slice_from e0 (-2)))))).
Proof.
  intros H1 H2. split.
  - intros ch H. apply core_hole_edge in H.
    rewrite (edge_lookup_unmapped _ H1 H2) in H.
    destruct (CoreHole.edge ch); discriminate H.
  - intros ch0 H. unfold core_hole in *.
    assert (I0 : Py.index (e0 :: rest) 0 = Ok e0)
      by (apply index_nth; [lia | reflexivity]).
    rewrite I0. cbn [Res.bind].
    repeat bind_inv H.
    repeat match goal with
           | E : ?r = Ok _ |- context [Res.bind ?r _] => rewrite E; cbn [Res.bind]
           end.
    now rewrite (edge_lookup_unmapped _ H1 H2).
Qed.

(** C4, amended: the last two numbers of the first edge select the label:
    [1, 0] gives K and [2, 1] gives L23.  For any other pair the core-hole
    step raises; when the rest of the core-hole input is in order the
    exception is a [KeyError] whose key is the printed pair.  Nothing
    catches the exception: when the first edge of the configuration has
    such a pair, [parse] raises whatever the directory and the archives
    hold, so the run does not complete and no workflow comes out of it. *)
Theorem core_hole_edge_label (data : json) (e0 : list Z) (rest : list (list Z)) :
  let pair := Py.slice_from e0 (-2) in
  (pair = [1; 0] ->
   forall ch, core_hole data (e0 :: rest) = Ok ch -> CoreHole.edge ch = Some "K")
  /\ (pair = [2; 1] ->
      forall ch, core_hole data (e0 :: rest) = Ok ch -> CoreHole.edge ch = Some "L23")
  /\ (pair <> [1; 0] -> pair <> [2; 1] ->
      (forall ch, core_hole data (e0 :: rest) <> Ok ch)
      /\ (forall ch0,
             core_hole data [[1; 0]] = Ok ch0 ->
             core_hole data (e0 :: rest)
             = Raise (KeyError (JStr (Py.str_of_int_list pair))))
      /\ (parse_edges data = Ok (e0 :: rest) ->
          forall listdir photon_parser spectra_parser lanczos_parser
                 chemical_symbols h,
          exists e,
            parse listdir photon_parser spectra_parser lanczos_parser
              chemical_symbols (Some data) h = Raise e)).
Proof.
  cbv zeta. split; [|split].
  - intros Hp ch H. apply core_hole_edge in H. rewrite Hp in H.
    destruct (CoreHole.edge ch); [|discriminate H].
    cbn in H. now inversion H.
  - intros Hp ch H. apply core_hole_edge in H. rewrite Hp in H.
    destruct (CoreHole.edge ch); [|discriminate H].
    cbn in H. now inversion H.
  - intros H1 H2. destruct (core_hole_unmapped data e0 rest H1 H2) as [Hn Hk].
    split; [exact Hn | split; [exact Hk|]].
    intros Hedges listdir pp sp lp cs h.
    destruct (method_section data None) as [m|e] eqn:Hm.
    + exfalso. destruct (method_section_blocks _ _ _ Hm)
        as (bp & ch & bse & _ & _ & _ & _ & _ & edges & He & Hc).
      rewrite Hedges in He. inversion He; subst edges.
      exact (Hn ch Hc).
    + eapply parse_raises. exact Hm.
Qed.

Lemma core_hole_edge_label_witness :
  (exists ch,
      core_hole (Sample.config "haydock" "1 1 0" Sample.structure) [[1; 1; 0]] = Ok ch
      /\ CoreHole.edge ch = Some "K")
  /\ core_hole (Sample.config "haydock" "1 3 2" Sample.structure) [[1; 3; 2]]
     = Raise (KeyError (JStr "[3, 2]"))
  /\ exists e,
      parse Sample.dir Sample.photons Sample.spectra_tab Sample.lanczos
        Sample.symbols (Some (Sample.config "haydock" "1 3 2" Sample.structure))
        (initial_heap Sample.dir)
      = Raise e.
Proof.
  split; [|split].
  - destruct (core_hole (Sample.config "haydock" "1 1 0" Sample.structure) [[1; 1; 0]])
      as [ch|e] eqn:E; [|vm_compute in E; discriminate E].
    exists ch. split; [reflexivity|].
    exact (proj1 (core_hole_edge_label _ [1; 1; 0] []) eq_refl ch E).
  - destruct (proj2 (proj2 (core_hole_edge_label
                               (Sample.config "haydock" "1 3 2" Sample.structure)
                               [1; 3; 2] [])))
      as [_ [Hk _]]; [vm_compute; discriminate | vm_compute; discriminate|].
    destruct (core_hole (Sample.config "haydock" "1 3 2" Sample.structure) [[1; 0]])
      as [ch0|e] eqn:E; [|vm_compute in E; discriminate E].
    exact (Hk ch0 eq_refl).
  - destruct (proj2 (proj2 (core_hole_edge_label
                               (Sample.config "haydock" "1 3 2" Sample.structure)
                               [1; 3; 2] [])))
      as [_ [_ Hp]]; [vm_compute; discriminate | vm_compute; discriminate|].
    apply Hp. reflexivity.
Defined.

(** The claim, as stated, at a configuration whose first edge ends in
    [3, 2]: the error would leave sibling child runs and the workflow step
    in place.  The run over the two spectra files raises the [KeyError] of
    the pair and does not return, so nothing is aggregated. *)
Lemma unmapped_edge_crashes_run_counterexample :
  parse_edges (Sample.config "haydock" "1 3 2" Sample.structure) = Ok [[1; 3; 2]]
  /\ Sample.run Sample.dir (Some (Sample.config "haydock" "1 3 2" Sample.structure))
     = Raise (KeyError (JStr "[3, 2]"))
  /\ forall h,
      Sample.run Sample.dir (Some (Sample.config "haydock" "1 3 2" Sample.structure))
      <> Ok h.
Proof.
  split; [|split].
  - vm_compute. reflexivity.
  - vm_compute. reflexivity.
  - intros h H. vm_compute in H. discriminate H.
Qed.

(** ** One child run *)

Lemma assoc_update_same {A} (k : string) (v a : A) (l : list (string * A)) :
  Json.assoc k l = Some a -> Json.assoc k (update_assoc k v l) = Some v.
Proof.
  induction l as [|[k' w] tl IH]; simpl; [discriminate|].
  destruct (String.eqb k k') eqn:E; simpl; rewrite E; auto.
Qed.

Lemma assoc_update_other {A} (k k' : string) (v : A) (l : list (string * A)) :
  k <> k' -> Json.assoc k' (update_assoc k v l) = Json.assoc k' l.
Proof.
  intros Hne. induction l as [|[k0 w] tl IH]; simpl; [reflexivity|].
  destruct (String.eqb k k0) eqn:E; simpl.
  - apply String.eqb_eq in E. subst k0.
    destruct (String.eqb_spec k' k) as [->|_]; [congruence | reflexivity].
  - now rewrite IH.
Qed.

Lemma update_update {A} (k : string) (v1 v2 : A) (l : list (string * A)) :
  update_assoc k v2 (update_assoc k v1 l) = update_assoc k v2 l.
Proof.
  induction l as [|[k' w] tl IH]; simpl; [reflexivity|].
  destruct (String.eqb k k') eqn:E; simpl; rewrite E; [reflexivity | now rewrite IH].
Qed.

Lemma update_keys {A} (k : string) (v : A) (l : list (string * A)) :
  map fst (update_assoc k v l) = map fst l.
Proof.
  induction l as [|[k' w] tl IH]; simpl; [reflexivity|].
  destruct (String.eqb k k'); simpl; [reflexivity | now rewrite IH].
Qed.

Lemma set_child_twice (h : heap) (k : string) (a1 a2 : EntryArchive.t) :
  set_child (set_child h k a1) k a2 = set_child h k a2.
Proof. unfold set_child. cbn. now rewrite update_update. Qed.

Lemma assoc_set_child (h : heap) (k : string) (a a' : EntryArchive.t) :
  Json.assoc k (_child_archives h) = Some a ->
  Json.assoc k (_child_archives (set_child h k a')) = Some a'.
Proof. intros H. cbn. eapply assoc_update_same. exact H. Qed.

Lemma photon_step (listdir : list string)
  (photon_parser : string -> PhotonResults.t) (path : string) (r : Run.t) :
  match photon_files listdir path with
  | [] => Ok (add_photon_method r Photon.empty)
  | photon_file0 :: _ =>
      let? sec_photon := parse_photon photon_parser photon_file0 in
      Ok (add_photon_method r sec_photon)
  end
  = let? sec_photon :=
      match photon_files listdir path with
      | [] => Ok Photon.empty
      | photon_file0 :: _ => parse_photon photon_parser photon_file0
      end in
    Ok (add_photon_method r sec_photon).
Proof. now destruct (photon_files listdir path). Qed.

Lemma parse_spectra_entries_run (listdir : list string)
  (photon_parser : string -> PhotonResults.t)
  (spectra_parser : string -> option (list (list Q)))
  (lanczos_parser : string -> option (list lval))
  (chemical_symbols : list string) (data : json) (path : string)
  (h : heap) (a : EntryArchive.t) :
  Json.assoc path (_child_archives h) = Some a ->
  parse_spectra_entries listdir photon_parser spectra_parser lanczos_parser
    chemical_symbols data path h
  = match child_run listdir photon_parser spectra_parser lanczos_parser
            chemical_symbols data path with
    | Ok (r, true) =>
        Ok (tt, set_child h path
                  (EntryArchive.Make (EntryArchive.run a ++ [r]) (Some SinglePoint)))
    | Ok (r, false) =>
        Ok (tt, add_log
                  (set_child h path
                     (EntryArchive.Make (EntryArchive.run a ++ [r])
                        (EntryArchive.workflow2 a)))
                  LogError structure_error)
    | Raise e => Raise e
    end.
Proof.
  intros Ha. unfold parse_spectra_entries, child_run.
  (* m_create(Run) *)
  rewrite bind_run. unfold create_run at 1. rewrite bind_run.
  rewrite (get_child_run h path a Ha). cbn [set_archive].
  fold (set_child h path
          (EntryArchive.Make (EntryArchive.run a ++ [Run.empty])
             (EntryArchive.workflow2 a))).
  (* Program *)
  rewrite bind_run.
  erewrite update_run_child;
    [| eapply assoc_set_child; exact Ha | reflexivity].
  destruct (program_section data) as [p|e]; cbn [Res.bind]; [|reflexivity].
  rewrite set_child_twice. heap_simpl.
  (* System *)
  rewrite bind_run. unfold St.lift at 1.
  destruct (Json.get data "structure") as [structure|e]; cbn [Res.bind]; [|reflexivity].
  destruct (Json.truthy structure); cbn [negb]; [|reflexivity].
  rewrite bind_run. unfold parse_system.
  erewrite update_run_child;
    [| eapply assoc_set_child; exact Ha | reflexivity].
  destruct (atoms_section chemical_symbols structure) as [sec_atoms|e];
    cbn [Res.bind]; [|reflexivity].
  rewrite set_child_twice. heap_simpl.
  (* Method: photon *)
  rewrite bind_run. unfold parse_photon_polarization.
  erewrite update_run_child;
    [| eapply assoc_set_child; exact Ha | reflexivity].
  rewrite photon_step.
  destruct (match photon_files listdir path with
            | [] => Ok Photon.empty
            | photon_file0 :: _ => parse_photon photon_parser photon_file0
            end) as [sec_photon|e]; cbn [Res.bind]; [|reflexivity].
  rewrite set_child_twice. heap_simpl.
  (* Method: parameters *)
  rewrite bind_run. unfold parse_method.
  erewrite update_run_child;
    [| eapply assoc_set_child; exact Ha | reflexivity].
  cbv zeta. heap_simpl.
  destruct (method_section data (Some 0%nat)) as [sec_method|e];
    cbn [Res.bind]; [|reflexivity].
  rewrite set_child_twice. heap_simpl.
  (* Calculation *)
  rewrite bind_run. unfold parse_scc.
  erewrite update_run_child;
    [| eapply assoc_set_child; exact Ha | reflexivity].
  heap_simpl. cbn [last_ref length Nat.sub Res.bind].
  destruct (parse_spectra spectra_parser data path) as [sec_spectra|e];
    cbn [Res.bind]; [|reflexivity].
  destruct (lanczos_section listdir lanczos_parser path) as [sec_lanczos|e];
    cbn [Res.bind]; [|reflexivity].
  rewrite set_child_twice. heap_simpl.
  (* Workflow *)
  unfold set_workflow2. rewrite bind_run.
  erewrite get_child_run by (eapply assoc_set_child; exact Ha).
  cbn [set_archive EntryArchive.run EntryArchive.workflow2].
  unfold set_child. cbn [_child_archives archive log].
  now rewrite update_update.
Qed.

(** ** A child without photon file *)

(** C8, amended: when no file of the directory starts with "photon" and
    ends with the last character of the key, the photon step raises
    nothing, logs nothing and never consults the photon extractor; the
    first method section of the child run holds a photon section created
    before the lookup, with every quantity unset.  The rest of the child
    run is built as usual: program, system, the method parameters (whose
    [starting_method_ref] points to that first method section), the
    calculation, and the SinglePoint workflow. *)
Theorem child_without_photon_file (listdir : list string)
  (photon_parser : string -> PhotonResults.t)
  (spectra_parser : string -> option (list (list Q)))
  (lanczos_parser : string -> option (list lval))
  (chemical_symbols : list string) (data : json) (path : string)
  (h : heap) (a : EntryArchive.t) (sec_program : Program.t) (structure : json)
  (sec_atoms : Atoms.t) (sec_method : Method.t) (sec_spectra : Spectra.t)
  (sec_lanczos : option Lanczos.t) :
  photon_files listdir path = [] ->
  Json.assoc path (_child_archives h) = Some a ->
  program_section data = Ok sec_program ->
  Json.get data "structure" = Ok structure ->
  Json.truthy structure = true ->
  atoms_section chemical_symbols structure = Ok sec_atoms ->
  method_section data (Some 0%nat) = Ok sec_method ->
  parse_spectra spectra_parser data path = Ok sec_spectra ->
  lanczos_section listdir lanczos_parser path = Ok sec_lanczos ->
  parse_spectra_entries listdir photon_parser spectra_parser lanczos_parser
    chemical_symbols data path h
  = Ok (tt,
        Heap
          (update_assoc path
             (EntryArchive.Make
                (EntryArchive.run a
                   ++ [Run.Make (Some sec_program) [System.Make (Some sec_atoms)]
                         [Method.Make None [Photon.empty] None None None None None;
                          sec_method]
                         [Calculation.Make (Some 0%nat) (Some 1%nat)
                            [sec_spectra] sec_lanczos]])
                (Some SinglePoint))
             (_child_archives h))
          (archive h) (log h)).
Proof.
  intros Hph Ha Hp Hs Ht Hat Hm Hsp Hl.
  rewrite (parse_spectra_entries_run _ _ _ _ _ _ _ _ a Ha).
  unfold child_run. rewrite Hp. cbn [Res.bind]. rewrite Hs. cbn [Res.bind].
  rewrite Ht. cbn [negb]. rewrite Hat. cbn [Res.bind]. rewrite Hph.
  cbn [Res.bind]. rewrite Hm. cbn [Res.bind]. rewrite Hsp. cbn [Res.bind].
  rewrite Hl. reflexivity.
Qed.

Lemma child_without_photon_file_witness :
  exists p at_ m s,
    parse_spectra_entries ["absspct_Li_02"; "ocean.json"] Sample.photons
      Sample.spectra_tab Sample.lanczos Sample.symbols
      (Sample.config "haydock" "1 1 0" Sample.structure) "absspct_Li_02"
      (Heap [("absspct_Li_02", EntryArchive.empty)] EntryArchive.empty [])
    = Ok (tt,
          Heap [("absspct_Li_02",
                 EntryArchive.Make
                   [Run.Make (Some p) [System.Make (Some at_)]
                      [Method.Make None [Photon.empty] None None None None None; m]
                      [Calculation.Make (Some 0%nat) (Some 1%nat) [s] None]]
                   (Some SinglePoint))]
               EntryArchive.empty []).
Proof.
  set (cfg := Sample.config "haydock" "1 1 0" Sample.structure).
  destruct (program_section cfg) as [p|e] eqn:Hp; [|vm_compute in Hp; discriminate Hp].
  destruct (atoms_section Sample.symbols Sample.structure) as [at_|e] eqn:Hat;
    [|vm_compute in Hat; discriminate Hat].
  destruct (method_section cfg (Some 0%nat)) as [m|e] eqn:Hm;
    [|vm_compute in Hm; discriminate Hm].
  destruct (parse_spectra Sample.spectra_tab cfg "absspct_Li_02") as [s|e] eqn:Hs;
    [|vm_compute in Hs; discriminate Hs].
  exists p, at_, m, s.
  apply (child_without_photon_file ["absspct_Li_02"; "ocean.json"] Sample.photons
           Sample.spectra_tab Sample.lanczos Sample.symbols cfg "absspct_Li_02"
           (Heap [("absspct_Li_02", EntryArchive.empty)] EntryArchive.empty [])
           EntryArchive.empty p Sample.structure at_ m s None);
    solve [reflexivity | assumption].
Defined.

(** The claim, as stated, in a directory without photon file: the method
    sections of the child run would hold no photon section.  The first
    one holds an empty photon section. *)
Lemma missing_photon_file_counterexample :
  photon_files ["absspct_Li_02"; "ocean.json"] "absspct_Li_02" = []
  /\ exists h a r m ms,
      Sample.run ["absspct_Li_02"; "ocean.json"]
        (Some (Sample.config "haydock" "1 1 0" Sample.structure)) = Ok h
      /\ Json.assoc "absspct_Li_02" (_child_archives h) = Some a
      /\ EntryArchive.run a = [r]
      /\ Run.method r = m :: ms
      /\ Method.photon m = [Photon.empty]
      /\ Method.photon m <> [].
Proof.
  split; [reflexivity|].
  destruct (Sample.run ["absspct_Li_02"; "ocean.json"]
              (Some (Sample.config "haydock" "1 1 0" Sample.structure)))
    as [h|e] eqn:E; [|vm_compute in E; discriminate E].
  vm_compute in E. inversion E; subst h. clear E.
  eexists _, _, _, _, _. split; [reflexivity|].
  cbn [_child_archives]. split; [reflexivity|].
  cbn [EntryArchive.run]. split; [reflexivity|].
  cbn [Run.method]. split; [reflexivity|].
  split; [reflexivity | discriminate].
Qed.

(** ** Which auxiliary file goes with a key *)




(** ** The loop over the children *)

Section ChildLoop.

Variable listdir : list string.
Variable photon_parser : string -> PhotonResults.t.
Variable spectra_parser : string -> option (list (list Q)).
Variable lanczos_parser : string -> option (list lval).
Variable chemical_symbols : list string.
Variable data : json.

Let body : string -> M unit :=
  parse_spectra_entries listdir photon_parser spectra_parser lanczos_parser
    chemical_symbols data.

Let built : string -> result (Run.t * bool) :=
  child_run listdir photon_parser spectra_parser lanczos_parser
    chemical_symbols data.

Lemma body_step (k : string) (h h' : heap) (a : EntryArchive.t) :
  Json.assoc k (_child_archives h) = Some a ->
  body k h = Ok (tt, h') ->
  exists r full,
    built k = Ok (r, full)
    /\ _child_archives h' = update_assoc k (child_after a r full) (_child_archives h)
    /\ archive h' = archive h.
Proof.
  intros Ha H. unfold body in H.
  rewrite (parse_spectra_entries_run _ _ _ _ _ _ _ _ a Ha) in H.
  fold (built k) in H.
  destruct (built k) as [[r [|]]|e]; inversion H; subst h'.
  - exists r, true. repeat split.
  - exists r, false. repeat split.
Qed.

Lemma children_loop (l : list string) :
  forall h h',
    NoDup l ->
    (forall k, In k l -> exists a, Json.assoc k (_child_archives h) = Some a) ->
    St.for_each l body h = Ok (tt, h') ->
    map fst (_child_archives h') = map fst (_child_archives h)
    /\ archive h' = archive h
    /\ (forall k, ~ In k l ->
                  Json.assoc k (_child_archives h') = Json.assoc k (_child_archives h))
    /\ (forall k, In k l ->
                  exists a r full,
                    Json.assoc k (_child_archives h) = Some a
                    /\ built k = Ok (r, full)
                    /\ Json.assoc k (_child_archives h')
                       = Some (child_after a r full)).
Proof.
  induction l as [|k tl IH]; intros h h' Hnd Hex H.
  - cbn in H. inversion H; subst h'. repeat split; auto. intros k [].
  - cbn [St.for_each] in H. rewrite bind_run in H.
    destruct (body k h) as [[[] h1]|e] eqn:Hb; [|discriminate H].
    destruct (Hex k (or_introl eq_refl)) as [a Ha].
    destruct (body_step k h h1 a Ha Hb) as (r & full & Hr & Hc & Har).
    inversion Hnd as [|? ? Hnotin Hnd']; subst.
    assert (Hex1 : forall k', In k' tl ->
                     exists a', Json.assoc k' (_child_archives h1) = Some a').
    { intros k' Hin. rewrite Hc, assoc_update_other.
      - apply Hex. now right.
      - intros ->. contradiction. }
    destruct (IH h1 h' Hnd' Hex1 H) as (Hk & Hroot & Hout & Hin).
    repeat split.
    + now rewrite Hk, Hc, update_keys.
    + now rewrite Hroot.
    + intros k' Hk'. rewrite Hout by (intros Hi; apply Hk'; now right).
      rewrite Hc, assoc_update_other; [reflexivity|].
      intros ->. apply Hk'. now left.
    + intros k' [<- | Hk'].
      * exists a, r, full. repeat split; auto.
        rewrite (Hout k Hnotin), Hc. eapply assoc_update_same. exact Ha.
      * destruct (Hin k' Hk') as (a' & r' & full' & Ha' & Hr' & Hfin).
        exists a', r', full'. repeat split; auto.
        rewrite Hc, assoc_update_other in Ha'; [exact Ha'|].
        intros ->. contradiction.
Qed.

Lemma child_run_shape (k : string) (r : Run.t) (full : bool) :
  built k = Ok (r, full) ->
  (full = false /\ Run.system r = [])
  \/ (full = true
      /\ exists p s m0 m1 spx lz,
          r = Run.Make (Some p) [s] [m0; m1]
                [Calculation.Make (Some 0%nat) (Some 1%nat) [spx] lz]
          /\ method_section data (Some 0%nat) = Ok m1).
Proof.
  unfold built, child_run. intros H.
  bind_inv H. bind_inv H.
  destruct (Json.truthy v0); cbn [negb] in H.
  - right. repeat bind_inv H. inversion H; subst. split; [reflexivity|].
    eexists _, _, _, _, _, _. split; [reflexivity | assumption].
  - left. inversion H; subst. split; reflexivity.
Qed.

Lemma child_run_full_indep (k1 k2 : string) (r1 r2 : Run.t) (f1 f2 : bool) :
  built k1 = Ok (r1, f1) -> built k2 = Ok (r2, f2) -> f1 = f2.
Proof.
  unfold built, child_run. intros H1 H2.
  bind_inv H1. bind_inv H1. bind_inv H2. bind_inv H2.
  assert (v1 = v) by congruence. subst v1.
  assert (v2 = v0) by congruence. subst v2.
  destruct (Json.truthy v0); cbn [negb] in H1, H2.
  - repeat bind_inv H1. repeat bind_inv H2.
    inversion H1; inversion H2; subst; reflexivity.
  - inversion H1; inversion H2; subst; reflexivity.
Qed.

End ChildLoop.

(** ** Aggregation over children built to the end *)

Lemma task_step_complete (photon_archive : list aref) (input_structure : System.t)
  (h : heap) (i : child_info)
  (spectra : list Spectra.t) (outputs : list Link.t)
  (tasks : list (TaskReference.t workflow)) :
  complete h i ->
  task_step photon_archive input_structure (spectra, outputs, tasks)
    (Child (ci_key i)) h
  = Ok (spectra ++ [ci_spectrum i], outputs ++ [output_link photon_archive i],
        tasks ++ [task_of photon_archive input_structure i]).
Proof.
  intros (m1 & Ha & Hs). unfold task_step. cbn [get_archive]. rewrite Ha.
  cbn [Res.bind fst EntryArchive.workflow2 EntryArchive.run].
  rewrite index_single. cbn [Res.bind Run.method Run.calculation].
  rewrite index_head.
  cbn [Res.bind]. rewrite index_single. cbn [Res.bind].
  rewrite Hs. rewrite index_head.
  reflexivity.
Qed.

Lemma task_loop_complete (photon_archive : list aref) (input_structure : System.t)
  (h : heap) (infos : list child_info) :
  Forall (complete h) infos ->
  forall spectra outputs tasks,
    task_loop photon_archive input_structure
      (map (fun i => Child (ci_key i)) infos) (spectra, outputs, tasks) h
    = Ok (spectra ++ map ci_spectrum infos,
          outputs ++ map (output_link photon_archive) infos,
          tasks ++ map (task_of photon_archive input_structure) infos).
Proof.
  induction 1 as [|i tl Hi Htl IH]; intros spectra outputs tasks.
  - cbn. now rewrite !app_nil_r.
  - cbn [map task_loop]. rewrite (task_step_complete _ _ _ _ _ _ _ Hi).
    cbn [Res.bind]. rewrite IH. now rewrite <- !app_assoc.
Qed.

Lemma aggregation_complete (data : json) (h : heap) (i0 : child_info)
  (rest : list child_info) (m : Method.t) :
  Forall (complete h) (i0 :: rest) ->
  method_section data None = Ok m ->
  let photon_archive := map (fun i => Child (ci_key i)) (i0 :: rest) in
  parse_photon_workflow data photon_archive Root h
  = Ok (tt,
        set_root h
          (EntryArchive.Make
             (EntryArchive.run (archive h)
                ++ [Run.Make (Some (ci_program i0)) [ci_system i0] [m] []])
             (Some (PhotonPolarizationWorkflow
                      (PhotonPolarization.Make (Some m) (length (i0 :: rest))
                         (map ci_spectrum (i0 :: rest))
                         [Link.Make "Input structure" (SecSystem (ci_system i0));
                          Link.Make "Input BSE methodology" (SecMethod m)]
                         (map (output_link photon_archive) (i0 :: rest))
                         (map (task_of photon_archive (ci_system i0))
                              (i0 :: rest))))))).
Proof.
  intros Hall Hm photon_archive.
  pose proof (Forall_inv Hall) as (m1 & Ha0 & Hs0).
  unfold parse_photon_workflow. subst photon_archive. cbn [map].
  rewrite bind_run, create_run_root. rewrite bind_run, bind_run.
  rewrite (get_child_run _ (ci_key i0) _) by exact Ha0.
  rewrite bind_run. unfold St.lift at 1. cbn [EntryArchive.run].
  rewrite index_single.
  cbn [m_xpath_program m_xpath_system Run.program Run.system andb].
  erewrite update_run_root by reflexivity. heap_simpl.
  rewrite bind_run. erewrite parse_method_root by reflexivity. heap_simpl.
  rewrite Hm.
  rewrite bind_run. cbn [get_archive]. heap_simpl.
  rewrite bind_run. unfold St.lift at 1. rewrite index_last.
  rewrite bind_run. unfold St.lift at 1. heap_simpl.
  rewrite index_single.
  rewrite bind_run. unfold St.lift at 1. rewrite index_single.
  rewrite bind_run.
  change (Child (ci_key i0) :: map (fun i => Child (ci_key i)) rest)
    with (map (fun i => Child (ci_key i)) (i0 :: rest)).
  rewrite task_loop_complete.
  - cbn [app length map]. rewrite length_map. reflexivity.
  - eapply Forall_impl; [|exact Hall].
    intros i (m1' & Hi & Hsi). exists m1'. split; [exact Hi | exact Hsi].
Qed.

(** ** One task per spectra file, in sorted order *)

Lemma initial_heap_keys (listdir : list string) :
  map fst (_child_archives (initial_heap listdir))
  = StringSort.sort (filter is_spectra_file listdir)
  /\ archive (initial_heap listdir) = EntryArchive.empty
  /\ forall k,
      In k (StringSort.sort (filter is_spectra_file listdir)) ->
      Json.assoc k (_child_archives (initial_heap listdir)) = Some EntryArchive.empty.
Proof.
  unfold initial_heap, get_mainfile_keys.
  fold is_spectra_file.
  set (keys := StringSort.sort (filter is_spectra_file listdir)).
  assert (Hk : match (if (0 <? length keys)%nat then Keys keys else MatchTrue) with
               | Keys ks => ks
               | MatchTrue => []
               end = keys).
  { destruct keys; reflexivity. }
  rewrite Hk. cbn [_child_archives archive]. repeat split.
  - rewrite map_map. cbn [fst]. apply map_id.
  - intros k. clear Hk. induction keys as [|k' tl IH]; intros Hin; [destruct Hin|].
    cbn [map Json.assoc]. destruct (String.eqb_spec k k') as [->|Hne]; [reflexivity|].
    apply IH. destruct Hin; [congruence | assumption].
Qed.

Lemma list_index_nth (keys : list string) :
  NoDup keys ->
  forall i k, nth_error keys i = Some k -> list_index (Child k) (map Child keys) = i.
Proof.
  induction 1 as [|k0 tl Hnotin Hnd IH]; intros i k Hi.
  - destruct i; discriminate Hi.
  - destruct i as [|i]; cbn in Hi; cbn [map list_index aref_eqb].
    + inversion Hi; subst. now rewrite String.eqb_refl.
    + destruct (String.eqb_spec k0 k) as [->|_].
      * exfalso. apply Hnotin. eapply nth_error_In. exact Hi.
      * f_equal. now apply IH.
Qed.

Lemma infos_exist (h : heap) (l : list string) :
  (forall k, In k l -> exists i, ci_key i = k /\ complete h i) ->
  exists infos, map ci_key infos = l /\ Forall (complete h) infos.
Proof.
  induction l as [|k tl IH]; intros H.
  - exists []. split; [reflexivity | constructor].
  - destruct (H k (or_introl eq_refl)) as (i & Hk & Hi).
    destruct IH as (infos & Hm & Hall); [intros k' Hk'; apply H; now right|].
    exists (i :: infos). split; [cbn; congruence | now constructor].
Qed.

(** The two ways the aggregation ends early, in the form the lemmas on
    the whole run use. *)
Lemma workflow_no_children (data : json) (h : heap) (m : Method.t) :
  method_section data None = Ok m ->
  parse_photon_workflow data [] Root h
  = Ok (tt,
        Heap (_child_archives h)
          (EntryArchive.Make
             (EntryArchive.run (archive h)
                ++ [Run.Make (Some Program.empty) [System.empty] [m] []])
             (Some (PhotonPolarizationWorkflow
                      (PhotonPolarization.Make (Some m) 0 []
                         [Link.Make "Input structure" (SecSystem System.empty);
                          Link.Make "Input BSE methodology" (SecMethod m)]
                         [] []))))
          (log h ++ [(LogWarning, no_children_warning)])).
Proof.
  intros Hm. unfold parse_photon_workflow.
  rewrite bind_run, create_run_root.
  rewrite bind_run, bind_run. unfold logger at 1.
  erewrite update_run_root by reflexivity. heap_simpl.
  rewrite bind_run. erewrite parse_method_root by reflexivity. heap_simpl.
  rewrite Hm.
  rewrite bind_run. cbn [get_archive]. heap_simpl.
  rewrite bind_run. unfold St.lift at 1. rewrite index_last.
  reflexivity.
Qed.

Lemma workflow_first_incomplete
  (data : json) (k : string) (rest : list aref) (h : heap)
  (a0 : EntryArchive.t) (rs : list Run.t) (r0 : Run.t) :
  Json.assoc k (_child_archives h) = Some a0 ->
  EntryArchive.run a0 = rs ++ [r0] ->
  Run.program r0 = None \/ Run.system r0 = [] ->
  parse_photon_workflow data (Child k :: rest) Root h
  = match method_section data None with
    | Ok _ => Raise IndexError
    | Raise e => Raise e
    end.
Proof.
  intros Ha Hr Hlack. unfold parse_photon_workflow.
  rewrite bind_run, create_run_root.
  rewrite bind_run, bind_run.
  rewrite (get_child_run _ k a0) by exact Ha.
  rewrite bind_run. unfold St.lift at 1. rewrite Hr, index_last.
  assert (Hc : m_xpath_program r0 && m_xpath_system r0 = false).
  { unfold m_xpath_program, m_xpath_system.
    destruct Hlack as [-> | ->]; [reflexivity | now destruct (Run.program r0)]. }
  rewrite Hc. unfold St.ret at 1.
  rewrite bind_run. erewrite parse_method_root by reflexivity. heap_simpl.
  destruct (method_section data None) as [m|e]; [|reflexivity].
  rewrite bind_run. cbn [get_archive]. heap_simpl.
  rewrite bind_run. unfold St.lift at 1. rewrite index_last.
  rewrite bind_run. unfold St.lift at 1. heap_simpl. now rewrite index_nil.
Qed.

(** What a run that completes leaves behind: the children in sorted key
    order and one task per child, in that order. *)
Lemma completed_run_tasks
  (listdir : list string) (photon_parser : string -> PhotonResults.t)
  (spectra_parser : string -> option (list (list Q)))
  (lanczos_parser : string -> option (list lval))
  (chemical_symbols : list string) (data : json) (h : heap) :
  NoDup listdir ->
  run_parser listdir photon_parser spectra_parser lanczos_parser
    chemical_symbols (Some data) = Ok h ->
  let files := filter is_spectra_file listdir in
  let keys := StringSort.sort files in
  Permutation files keys
  /\ Sorted (fun a b => String.leb a b = true) keys
  /\ map fst (_child_archives h) = keys
  /\ exists w,
      EntryArchive.workflow2 (archive h) = Some (PhotonPolarizationWorkflow w)
      /\ length (PhotonPolarization.tasks w) = length files
      /\ PhotonPolarization.n_polarizations w = length files
      /\ forall i k,
          nth_error keys i = Some k ->
          exists r c t,
            Json.assoc k (_child_archives h)
            = Some (EntryArchive.Make [r] (Some SinglePoint))
            /\ Run.calculation r = [c]
            /\ nth_error (PhotonPolarization.tasks w) i = Some t
            /\ TaskReference.task t = SinglePoint
            /\ TaskReference.outputs t
               = [Link.Make
                    ("Output polarization " ++ Py.str_of_int (Z.of_nat i + 1))
                    (SecCalculation c)].
Proof.
  intros Hnd Hrun files keys.
  assert (Hperm : Permutation files keys) by apply StringSort.Permuted_sort.
  assert (Hlen : length keys = length files)
    by (symmetry; now apply Permutation_length).
  assert (Hndk : NoDup keys).
  { eapply Permutation_NoDup; [exact Hperm|]. now apply NoDup_filter. }
  split; [exact Hperm|]. split; [exact (StringSort.Sorted_sort files)|].
  destruct (initial_heap_keys listdir) as (Hkeys0 & Hroot0 & Hempty).
  fold files in Hkeys0, Hempty. fold keys in Hkeys0, Hempty.
  unfold run_parser in Hrun.
  destruct (parse _ _ _ _ _ _ _) as [[u h2]|e] eqn:Hp; inversion Hrun; subst h2.
  clear Hrun. unfold parse in Hp. rewrite bind_run in Hp. rewrite Hkeys0 in Hp.
  rewrite bind_run in Hp.
  destruct (St.for_each keys _ _) as [[[] h1]|e] eqn:Hloop; [|discriminate Hp].
  destruct (children_loop _ _ _ _ _ _ keys _ _ Hndk
              (fun k Hk => ex_intro _ _ (Hempty k Hk)) Hloop)
    as (Hk1 & Hroot1 & _ & Hin1).
  rewrite Hkeys0 in Hk1.
  (* every child was built: either all to the end, or none *)
  destruct keys as [|k0 rest] eqn:Ekeys.
  - (* no spectra file *)
    cbn [map] in Hp.
    destruct (method_section data None) as [m|e] eqn:Hm.
    + rewrite (workflow_no_children data h1 m Hm) in Hp.
      inversion Hp; subst h. cbn [_child_archives archive EntryArchive.workflow2].
      split; [exact Hk1|]. eexists. split; [reflexivity|].
      cbn [PhotonPolarization.tasks PhotonPolarization.n_polarizations length].
      split; [exact Hlen|]. split; [exact Hlen|].
      intros i k Hi. destruct i; discriminate Hi.
    + destruct (parse_photon_workflow_raises data None e [] h1 Hm) as [e' He'].
      rewrite He' in Hp. discriminate Hp.
  - destruct (Hin1 k0 (or_introl eq_refl)) as (a0 & r0 & full & Ha0 & Hr0 & Hfin0).
    rewrite (Hempty k0 (or_introl eq_refl)) in Ha0. inversion Ha0; subst a0.
    destruct (child_run_shape _ _ _ _ _ _ _ _ _ Hr0)
      as [[-> Hsys] | [-> (p0 & s0 & m00 & m10 & spx0 & lz0 & -> & Hm0)]].
    + (* the first child stopped after its program: the aggregation raises *)
      exfalso. cbn [map] in Hp.
      rewrite (workflow_first_incomplete data k0 (map Child rest) h1
                 _ [] r0 Hfin0 eq_refl (or_intror Hsys)) in Hp.
      destruct (method_section data None); discriminate Hp.
    + assert (Hall : forall k, In k (k0 :: rest) ->
                       exists i, ci_key i = k /\ complete h1 i).
      { intros k Hk.
        destruct (Hin1 k Hk) as (a & r & full & Ha & Hr & Hfin).
        rewrite (Hempty k Hk) in Ha. inversion Ha; subst a.
        assert (full = true)
          by (eapply child_run_full_indep; [exact Hr | exact Hr0]).
        subst full.
        destruct (child_run_shape _ _ _ _ _ _ _ _ _ Hr)
          as [[Hf _] | [_ (p & s & m0 & m1 & spx & lz & -> & _)]];
          [discriminate Hf|].
        exists (ChildInfo k p s m0
                  (Calculation.Make (Some 0%nat) (Some 1%nat) [spx] lz) spx).
        split; [reflexivity|]. exists m1. split; [exact Hfin | reflexivity]. }
      destruct (infos_exist h1 (k0 :: rest) Hall) as (infos & Hmap & Hcomp).
      destruct infos as [|i0 irest]; [discriminate Hmap|].
      assert (Hm : exists m, method_section data None = Ok m).
      { rewrite (method_section_starting data (Some 0%nat)) in Hm0.
        destruct (method_section data None) as [m|e]; [eauto | discriminate Hm0]. }
      destruct Hm as [m Hm].
      assert (Hpa : map Child (k0 :: rest)
                    = map (fun i => Child (ci_key i)) (i0 :: irest))
        by (rewrite <- Hmap; now rewrite map_map).
      rewrite Hpa in Hp.
      rewrite (aggregation_complete data h1 i0 irest m Hcomp Hm) in Hp.
      injection Hp as _ Hh. subst h.
      cbn [_child_archives archive set_root EntryArchive.workflow2].
      split; [exact Hk1|]. eexists. split; [reflexivity|].
      cbn [PhotonPolarization.tasks PhotonPolarization.n_polarizations].
      set (pa := Child (ci_key i0) :: map (fun i => Child (ci_key i)) irest).
      change (task_of pa (ci_system i0) i0 :: map (task_of pa (ci_system i0)) irest)
        with (map (task_of pa (ci_system i0)) (i0 :: irest)).
      change (S (length irest)) with (length (i0 :: irest)).
      change (map (fun i => Child (ci_key i)) (i0 :: irest)) with pa in Hpa.
      assert (Hli : length (i0 :: irest) = length (k0 :: rest))
        by (rewrite <- Hmap; now rewrite length_map).
      split; [rewrite length_map; congruence|]. split; [congruence|].
      intros i k Hi.
      assert (Hinfo : exists inf, nth_error (i0 :: irest) i = Some inf
                                  /\ ci_key inf = k).
      { rewrite <- Hmap, nth_error_map in Hi.
        destruct (nth_error (i0 :: irest) i) as [inf|]; [|discriminate Hi].
        exists inf. split; [reflexivity|]. now inversion Hi. }
      destruct Hinfo as (inf & Hnth & Hkey).
      pose proof (proj1 (Forall_forall _ _) Hcomp inf (nth_error_In _ _ Hnth))
        as (m1 & Ha & Hs).
      rewrite Hkey in Ha.
      eexists _, (ci_calculation inf), _. split; [exact Ha|].
      split; [reflexivity|]. split.
      * rewrite nth_error_map, Hnth. reflexivity.
      * split; [reflexivity|]. cbn [task_of TaskReference.outputs].
        unfold output_link. rewrite <- Hpa, Hkey.
        now rewrite (list_index_nth (k0 :: rest) Hndk i k Hi).
Qed.


Section RunCompletes.

Variable listdir : list string.
Variable photon_parser : string -> PhotonResults.t.
Variable spectra_parser : string -> option (list (list Q)).
Variable lanczos_parser : string -> option (list lval).
Variable chemical_symbols : list string.
Variable data : json.

Let body : string -> M unit :=
  parse_spectra_entries listdir photon_parser spectra_parser lanczos_parser
    chemical_symbols data.

Let built : string -> result (Run.t * bool) :=
  child_run listdir photon_parser spectra_parser lanczos_parser
    chemical_symbols data.

Lemma children_loop_ok (l : list string) :
  forall h,
    NoDup l ->
    (forall k, In k l -> exists a, Json.assoc k (_child_archives h) = Some a) ->
    (forall k, In k l -> exists r full, built k = Ok (r, full)) ->
    exists h', St.for_each l body h = Ok (tt, h').
Proof.
  induction l as [|k tl IH]; intros h Hnd Hex Hb.
  - eexists. reflexivity.
  - cbn [St.for_each]. rewrite bind_run.
    destruct (Hex k (or_introl eq_refl)) as [a Ha].
    destruct (Hb k (or_introl eq_refl)) as (r & full & Hr).
    inversion Hnd as [|? ? Hnotin Hnd']; subst.
    assert (Hstep : exists h1,
               body k h = Ok (tt, h1)
               /\ _child_archives h1
                  = update_assoc k (child_after a r full) (_child_archives h)).
    { unfold body. rewrite (parse_spectra_entries_run _ _ _ _ _ _ _ _ a Ha).
      fold (built k). rewrite Hr. destruct full; eexists; split; reflexivity. }
    destruct Hstep as (h1 & Hh1 & Hc). rewrite Hh1.
    apply IH; [exact Hnd' | | intros k' Hk'; apply Hb; now right].
    intros k' Hk'. rewrite Hc, assoc_update_other.
    + apply Hex. now right.
    + intros ->. contradiction.
Qed.

Lemma run_completes (m : Method.t) :
  NoDup listdir ->
  (forall k, In k (filter is_spectra_file listdir) ->
             exists r, built k = Ok (r, true)) ->
  method_section data None = Ok m ->
  exists h,
    run_parser listdir photon_parser spectra_parser lanczos_parser
      chemical_symbols (Some data) = Ok h.
Proof.
  intros Hnd Hbuilt Hm.
  set (files := filter is_spectra_file listdir) in *.
  set (keys := StringSort.sort files).
  assert (Hperm : Permutation files keys) by apply StringSort.Permuted_sort.
  assert (Hndk : NoDup keys).
  { eapply Permutation_NoDup; [exact Hperm|]. now apply NoDup_filter. }
  assert (Hbk : forall k, In k keys -> exists r, built k = Ok (r, true)).
  { intros k Hk. apply Hbuilt. eapply Permutation_in; [symmetry; exact Hperm | exact Hk]. }
  destruct (initial_heap_keys listdir) as (Hkeys0 & Hroot0 & Hempty).
  fold files in Hkeys0, Hempty. fold keys in Hkeys0, Hempty.
  unfold run_parser, parse. rewrite bind_run. rewrite Hkeys0. rewrite bind_run.
  destruct (children_loop_ok keys (initial_heap listdir) Hndk
              (fun k Hk => ex_intro _ _ (Hempty k Hk))
              (fun k Hk => match Hbk k Hk with
                           | ex_intro _ r Hr => ex_intro _ r (ex_intro _ true Hr)
                           end))
    as [h1 Hloop].
  fold body. rewrite Hloop.
  destruct (children_loop _ _ _ _ _ _ keys _ _ Hndk
              (fun k Hk => ex_intro _ _ (Hempty k Hk)) Hloop)
    as (_ & _ & _ & Hin1).
  destruct keys as [|k0 rest] eqn:Ekeys.
  - cbn [map]. rewrite (workflow_no_children data h1 m Hm). eauto.
  - assert (Hall : forall k, In k (k0 :: rest) ->
                     exists i, ci_key i = k /\ complete h1 i).
    { intros k Hk.
      destruct (Hin1 k Hk) as (a & r & full & Ha & Hr & Hfin).
      rewrite (Hempty k Hk) in Ha. inversion Ha; subst a.
      destruct (Hbk k Hk) as [r' Hr']. fold (built k) in Hr.
      rewrite Hr' in Hr. inversion Hr; subst r' full.
      destruct (child_run_shape _ _ _ _ _ _ _ _ _ Hr')
        as [[Hf _] | [_ (p & s & m0 & m1 & spx & lz & -> & _)]];
        [discriminate Hf|].
      exists (ChildInfo k p s m0
                (Calculation.Make (Some 0%nat) (Some 1%nat) [spx] lz) spx).
      split; [reflexivity|]. exists m1. split; [exact Hfin | reflexivity]. }
    destruct (infos_exist h1 (k0 :: rest) Hall) as (infos & Hmap & Hcomp).
    destruct infos as [|i0 irest]; [discriminate Hmap|].
    assert (Hpa : map Child (k0 :: rest)
                  = map (fun i => Child (ci_key i)) (i0 :: irest))
      by (rewrite <- Hmap; now rewrite map_map).
    rewrite Hpa.
    rewrite (aggregation_complete data h1 i0 irest m Hcomp Hm). eauto.
Qed.

End RunCompletes.

(** C1, amended: over a directory of distinct names with N files whose
    name starts with "absspct".  A run that completes leaves a
    PhotonPolarization workflow with exactly N tasks: the keys of the
    child archives are those N names in sorted order, each child holds one
    run ending in a SinglePoint workflow, and the i-th task refers to the
    workflow of the child of the i-th name and has that child's
    calculation as its output, labelled with i + 1.  The run completes
    whenever the loaded configuration is one from which every child run is
    built to the end and the method section can be built.  That the
    configuration loads is not enough for this. *)
Theorem tasks_follow_sorted_spectra_files
  (listdir : list string) (photon_parser : string -> PhotonResults.t)
  (spectra_parser : string -> option (list (list Q)))
  (lanczos_parser : string -> option (list lval))
  (chemical_symbols : list string) (data : json) :
  NoDup listdir ->
  let files := filter is_spectra_file listdir in
  let keys := StringSort.sort files in
  ((forall k, In k files ->
              exists r,
                child_run listdir photon_parser spectra_parser lanczos_parser
                  chemical_symbols data k = Ok (r, true)) ->
   (exists m, method_section data None = Ok m) ->
   exists h,
     run_parser listdir photon_parser spectra_parser lanczos_parser
       chemical_symbols (Some data) = Ok h)
  /\ forall h,
      run_parser listdir photon_parser spectra_parser lanczos_parser
        chemical_symbols (Some data) = Ok h ->
      Permutation files keys
      /\ Sorted (fun a b => String.leb a b = true) keys
      /\ map fst (_child_archives h) = keys
      /\ exists w,
          EntryArchive.workflow2 (archive h) = Some (PhotonPolarizationWorkflow w)
          /\ length (PhotonPolarization.tasks w) = length files
          /\ PhotonPolarization.n_polarizations w = length files
          /\ forall i k,
              nth_error keys i = Some k ->
              exists r c t,
                Json.assoc k (_child_archives h)
                = Some (EntryArchive.Make [r] (Some SinglePoint))
                /\ Run.calculation r = [c]
                /\ nth_error (PhotonPolarization.tasks w) i = Some t
                /\ TaskReference.task t = SinglePoint
                /\ TaskReference.outputs t
                   = [Link.Make
                        ("Output polarization " ++ Py.str_of_int (Z.of_nat i + 1))
                        (SecCalculation c)].
Proof.
  intros Hnd files keys. split.
  - intros Hbuilt [m Hm].
    exact (run_completes listdir photon_parser spectra_parser lanczos_parser
             chemical_symbols data m Hnd Hbuilt Hm).
  - intros h Hh.
    exact (completed_run_tasks listdir photon_parser spectra_parser lanczos_parser
             chemical_symbols data h Hnd Hh).
Qed.

Lemma sample_dir_nodup : NoDup Sample.dir.
Proof.
  unfold Sample.dir.
  repeat (constructor; [cbn; intuition discriminate|]). constructor.
Qed.

Lemma tasks_follow_sorted_spectra_files_witness :
  exists h w,
    Sample.run Sample.dir (Some (Sample.config "haydock" "1 1 0" Sample.structure))
    = Ok h
    /\ map fst (_child_archives h) = ["absspct_Li_01"; "absspct_Li_02"]
    /\ EntryArchive.workflow2 (archive h) = Some (PhotonPolarizationWorkflow w)
    /\ length (PhotonPolarization.tasks w) = 2%nat.
Proof.
  set (cfg := Sample.config "haydock" "1 1 0" Sample.structure).
  destruct (method_section cfg None) as [m|e] eqn:Hm;
    [|vm_compute in Hm; discriminate Hm].
  destruct (tasks_follow_sorted_spectra_files Sample.dir Sample.photons
              Sample.spectra_tab Sample.lanczos Sample.symbols cfg
              sample_dir_nodup)
    as [Hcompletes Htasks].
  destruct Hcompletes as [h Hrun].
  - intros k Hk. cbn in Hk.
    destruct Hk as [<- | [<- | []]]; eexists; vm_compute; reflexivity.
  - exists m. exact Hm.
  - destruct (Htasks h Hrun) as (_ & _ & Hkeys & w & Hw & Hlen & _).
    exists h, w. split; [exact Hrun|]. split; [exact Hkeys|].
    split; [exact Hw | exact Hlen].
Defined.

(** The claim, as stated, at the empty configuration [{}], which loads,
    over a directory with two spectra files: the first child build raises
    the [KeyError] of [data['version']], the run does not return and no
    task is produced. *)
Lemma loadable_configuration_without_tasks_counterexample :
  length (filter is_spectra_file Sample.dir) = 2%nat
  /\ Sample.run Sample.dir (Some (JDict [])) = Raise (KeyError (JStr "version"))
  /\ forall h, Sample.run Sample.dir (Some (JDict [])) <> Ok h.
Proof.
  split; [|split].
  - reflexivity.
  - vm_compute. reflexivity.
  - intros h H. vm_compute in H. discriminate H.
Qed.

(** * Further properties of the parser *)

(** ** get_mainfile_keys *)

Lemma filter_nil_iff {A} (p : A -> bool) (l : list A) :
  filter p l = [] <-> forall x, In x l -> p x = false.
Proof.
  induction l as [|y tl IH]; simpl.
  - split; [intros _ x [] | reflexivity].
  - destruct (p y) eqn:Py; split.
    + discriminate.
    + intros H. rewrite (H y (or_introl eq_refl)) in Py. discriminate.
    + intros H x [<- | Hx]; [exact Py | now apply IH].
    + intros H. apply IH. intros x Hx. apply H. now right.
Qed.

(** X1: [get_mainfile_keys] answers [True] exactly when no name of the
    directory starts with "absspct"; otherwise it answers a non-empty list
    of keys that is sorted, is a rearrangement of the matching names, and
    holds a name exactly when the directory holds it and it matches. *)
Theorem mainfile_keys_spec (listdir : list string) :
  (get_mainfile_keys listdir = MatchTrue
   <-> forall f, In f listdir -> is_spectra_file f = false)
  /\ forall keys,
      get_mainfile_keys listdir = Keys keys ->
      keys <> []
      /\ Sorted (fun a b => String.leb a b = true) keys
      /\ Permutation (filter is_spectra_file listdir) keys
      /\ forall k, In k keys <-> In k listdir /\ is_spectra_file k = true.
Proof.
  unfold get_mainfile_keys. fold is_spectra_file.
  set (files := filter is_spectra_file listdir).
  pose proof (StringSort.Permuted_sort files) as Hperm.
  pose proof (StringSort.Sorted_sort files) as Hsorted.
  destruct (StringSort.sort files) as [|k0 rest] eqn:Es; cbn [length Nat.ltb Nat.leb].
  - split.
    + split; [intros _ | reflexivity].
      apply filter_nil_iff. fold files.
      now apply Permutation_nil, Permutation_sym.
    + intros keys H. discriminate H.
  - split.
    + split; [discriminate|].
      intros H. apply filter_nil_iff in H. fold files in H. rewrite H in Hperm.
      apply Permutation_nil in Hperm. discriminate Hperm.
    + intros keys H. inversion H; subst keys. clear H.
      split; [discriminate|]. split; [exact Hsorted|]. split; [exact Hperm|].
      intros k. split.
      * intros Hk. apply (Permutation_in _ (Permutation_sym Hperm)) in Hk.
        unfold files in Hk. now apply filter_In in Hk.
      * intros Hk. apply (Permutation_in _ Hperm). unfold files.
        now apply filter_In.
Qed.

Lemma mainfile_keys_spec_witness :
  In "absspct_Li_02" ["absspct_Li_01"; "absspct_Li_02"]
  <-> In "absspct_Li_02" Sample.dir /\ is_spectra_file "absspct_Li_02" = true.
Proof.
  exact (proj2 (proj2 (proj2 (proj2 (mainfile_keys_spec Sample.dir)
                                 ["absspct_Li_01"; "absspct_Li_02"] eq_refl)))
           "absspct_Li_02").
Defined.

(** ** parse_spectra_entries *)

(** X2: what a child build that returns has changed.  Its effect is
    confined to the archive of its key and to the log: the keys of
    [_child_archives], every other child archive and the main archive are
    as before.  The archive of the key has exactly one run more, after the
    earlier ones.  When the configuration has a structure, [workflow2] of
    that archive is set to a SinglePoint and nothing is logged; when it has
    none, [workflow2] is left as it was and exactly one error is logged. *)
Theorem child_build_frame (listdir : list string)
  (photon_parser : string -> PhotonResults.t)
  (spectra_parser : string -> option (list (list Q)))
  (lanczos_parser : string -> option (list lval))
  (chemical_symbols : list string) (data : json) (path : string)
  (h h' : heap) (a : EntryArchive.t) :
  Json.assoc path (_child_archives h) = Some a ->
  parse_spectra_entries listdir photon_parser spectra_parser lanczos_parser
    chemical_symbols data path h = Ok (tt, h') ->
  map fst (_child_archives h') = map fst (_child_archives h)
  /\ archive h' = archive h
  /\ (forall k, k <> path ->
                Json.assoc k (_child_archives h') = Json.assoc k (_child_archives h))
  /\ exists a' r structure,
      Json.assoc path (_child_archives h') = Some a'
      /\ EntryArchive.run a' = EntryArchive.run a ++ [r]
      /\ Json.get data "structure" = Ok structure
      /\ if Json.truthy structure
         then EntryArchive.workflow2 a' = Some SinglePoint /\ log h' = log h
         else EntryArchive.workflow2 a' = EntryArchive.workflow2 a
              /\ log h'
                 = log h ++ [(LogError,
                              "Error finding the structure in the main output file.")].
Proof.
  intros Ha H.
  rewrite (parse_spectra_entries_run _ _ _ _ _ _ _ _ a Ha) in H.
  destruct (child_run _ _ _ _ _ _ _) as [[r full]|e] eqn:Hr; [|discriminate H].
  assert (Hs : exists structure,
             Json.get data "structure" = Ok structure
             /\ Json.truthy structure = full).
  { unfold child_run in Hr. bind_inv Hr. bind_inv Hr.
    match goal with
    | E : Json.get data "structure" = Ok ?v |- _ =>
        exists v; split; [exact E|]; destruct (Json.truthy v); cbn [negb] in Hr
    end.
    - repeat bind_inv Hr. now inversion Hr.
    - now inversion Hr. }
  destruct Hs as (structure & Hs & Ht).
  assert (Hh : _child_archives h'
               = update_assoc path (child_after a r full) (_child_archives h)
               /\ archive h' = archive h
               /\ log h' = if full then log h
                           else log h ++ [(LogError, structure_error)]).
  { destruct full; inversion H; subst h'; repeat split. }
  destruct Hh as (Hc & Hroot & Hlog).
  rewrite Hc. split; [apply update_keys|]. split; [exact Hroot|]. split.
  - intros k Hk. apply assoc_update_other. congruence.
  - exists (child_after a r full), r, structure.
    split; [eapply assoc_update_same; exact Ha|].
    split; [reflexivity|]. split; [exact Hs|].
    rewrite Ht, Hlog. destruct full; split; reflexivity.
Qed.

Lemma child_build_frame_witness :
  exists h',
    parse_spectra_entries Sample.dir Sample.photons Sample.spectra_tab
      Sample.lanczos Sample.symbols
      (Sample.config "haydock" "1 1 0" Sample.structure) "absspct_Li_01"
      (initial_heap Sample.dir) = Ok (tt, h')
    /\ Json.assoc "absspct_Li_02" (_child_archives h') = Some EntryArchive.empty
    /\ archive h' = EntryArchive.empty.
Proof.
  destruct (parse_spectra_entries Sample.dir Sample.photons Sample.spectra_tab
              Sample.lanczos Sample.symbols
              (Sample.config "haydock" "1 1 0" Sample.structure) "absspct_Li_01"
              (initial_heap Sample.dir)) as [[[] h']|e] eqn:E;
    [|vm_compute in E; discriminate E].
  exists h'. split; [reflexivity|].
  assert (Ha : Json.assoc "absspct_Li_01" (_child_archives (initial_heap Sample.dir))
               = Some EntryArchive.empty) by reflexivity.
  destruct (child_build_frame _ _ _ _ _ _ _ _ _ _ Ha E)
    as (_ & Hroot & Hother & _).
  split.
  - rewrite Hother by discriminate. reflexivity.
  - rewrite Hroot. reflexivity.
Defined.

(** X3: when the configuration has no structure (the value of
    [data.get('structure')] is missing, null or empty) and the program
    section can be built, the child build does not raise: it logs one
    error and returns, leaving a run that holds the program section only
    (no system, no method, no calculation) and leaving [workflow2] of the
    child as it was. *)
Theorem child_without_structure (listdir : list string)
  (photon_parser : string -> PhotonResults.t)
  (spectra_parser : string -> option (list (list Q)))
  (lanczos_parser : string -> option (list lval))
  (chemical_symbols : list string) (data : json) (path : string)
  (h : heap) (a : EntryArchive.t) (sec_program : Program.t) (structure : json) :
  Json.assoc path (_child_archives h) = Some a ->
  program_section data = Ok sec_program ->
  Json.get data "structure" = Ok structure ->
  Json.truthy structure = false ->
  parse_spectra_entries listdir photon_parser spectra_parser lanczos_parser
    chemical_symbols data path h
  = Ok (tt,
        Heap
          (update_assoc path
             (EntryArchive.Make
                (EntryArchive.run a ++ [Run.Make (Some sec_program) [] [] []])
                (EntryArchive.workflow2 a))
             (_child_archives h))
          (archive h)
          (log h ++ [(LogError,
                      "Error finding the structure in the main output file.")])).
Proof.
  intros Ha Hp Hs Ht.
  rewrite (parse_spectra_entries_run _ _ _ _ _ _ _ _ a Ha).
  unfold child_run. rewrite Hp. cbn [Res.bind]. rewrite Hs. cbn [Res.bind].
  rewrite Ht. reflexivity.
Qed.

Lemma child_without_structure_witness :
  exists p,
    parse_spectra_entries Sample.dir Sample.photons Sample.spectra_tab
      Sample.lanczos Sample.symbols
      (Sample.config "haydock" "1 1 0" JNull) "absspct_Li_01"
      (Heap [("absspct_Li_01", EntryArchive.empty)] EntryArchive.empty [])
    = Ok (tt,
          Heap [("absspct_Li_01",
                 EntryArchive.Make [Run.Make (Some p) [] [] []] None)]
            EntryArchive.empty
            [(LogError, "Error finding the structure in the main output file.")]).
Proof.
  destruct (program_section (Sample.config "haydock" "1 1 0" JNull))
    as [p|e] eqn:Hp; [|vm_compute in Hp; discriminate Hp].
  exists p.
  apply (child_without_structure Sample.dir Sample.photons Sample.spectra_tab
           Sample.lanczos Sample.symbols (Sample.config "haydock" "1 1 0" JNull)
           "absspct_Li_01"
           (Heap [("absspct_Li_01", EntryArchive.empty)] EntryArchive.empty [])
           EntryArchive.empty p JNull);
    solve [reflexivity | assumption].
Defined.

Lemma method_section_fields (data : json) (s : option nat) (m : Method.t) :
  method_section data s = Ok m ->
  Method.starting_method_ref m = s /\ Method.photon m = [].
Proof.
  intros H. unfold method_section in H. repeat bind_inv H.
  inversion H; subst m. split; reflexivity.
Qed.

(** X4: in a child run that is built to the end, the cross references are
    in bounds and point where they should: the run has one system and two
    method sections; the first method section holds the photon section and
    nothing else refers back from it; [starting_method_ref] of the second
    is position 0; the one calculation has [system_ref] at position 0 and
    [method_ref] at position 1, the method with the parameters, and holds
    exactly one spectrum.  The log is unchanged. *)
Theorem child_references (listdir : list string)
  (photon_parser : string -> PhotonResults.t)
  (spectra_parser : string -> option (list (list Q)))
  (lanczos_parser : string -> option (list lval))
  (chemical_symbols : list string) (data : json) (path : string)
  (h h' : heap) (a : EntryArchive.t) (structure : json) :
  Json.assoc path (_child_archives h) = Some a ->
  Json.get data "structure" = Ok structure ->
  Json.truthy structure = true ->
  parse_spectra_entries listdir photon_parser spectra_parser lanczos_parser
    chemical_symbols data path h = Ok (tt, h') ->
  log h' = log h
  /\ exists p s ph m1 sp lz,
      Json.assoc path (_child_archives h')
      = Some (EntryArchive.Make
                (EntryArchive.run a
                   ++ [Run.Make (Some p) [s]
                         [Method.Make None [ph] None None None None None; m1]
                         [Calculation.Make (Some 0%nat) (Some 1%nat) [sp] lz]])
                (Some SinglePoint))
      /\ Method.starting_method_ref m1 = Some 0%nat
      /\ Method.photon m1 = []
      /\ Program.name p = Some "OCEAN".
Proof.
  intros Ha Hs Ht H.
  rewrite (parse_spectra_entries_run _ _ _ _ _ _ _ _ a Ha) in H.
  unfold child_run in H.
  destruct (program_section data) as [p|e] eqn:Hp; cbn [Res.bind] in H;
    [|discriminate H].
  rewrite Hs in H. cbn [Res.bind] in H. rewrite Ht in H. cbn [negb] in H.
  destruct (atoms_section chemical_symbols structure) as [sec_atoms|e];
    cbn [Res.bind] in H; [|discriminate H].
  destruct (match photon_files listdir path with
            | [] => Ok Photon.empty
            | photon_file0 :: _ => parse_photon photon_parser photon_file0
            end) as [ph|e]; cbn [Res.bind] in H; [|discriminate H].
  destruct (method_section data (Some 0%nat)) as [m1|e] eqn:Hm;
    cbn [Res.bind] in H; [|discriminate H].
  destruct (parse_spectra spectra_parser data path) as [sp|e];
    cbn [Res.bind] in H; [|discriminate H].
  destruct (lanczos_section listdir lanczos_parser path) as [lz|e];
    cbn [Res.bind] in H; [|discriminate H].
  inversion H; subst h'. clear H. split; [reflexivity|].
  destruct (method_section_fields _ _ _ Hm) as [Hst Hph].
  exists p, (System.Make (Some sec_atoms)), ph, m1, sp, lz.
  split; [eapply assoc_update_same; exact Ha|].
  split; [exact Hst|]. split; [exact Hph|].
  unfold program_section in Hp. repeat bind_inv Hp. now inversion Hp.
Qed.

Lemma child_references_witness :
  exists h',
    parse_spectra_entries Sample.dir Sample.photons Sample.spectra_tab
      Sample.lanczos Sample.symbols
      (Sample.config "haydock" "1 1 0" Sample.structure) "absspct_Li_01"
      (initial_heap Sample.dir) = Ok (tt, h')
    /\ log h' = [].
Proof.
  destruct (parse_spectra_entries Sample.dir Sample.photons Sample.spectra_tab
              Sample.lanczos Sample.symbols
              (Sample.config "haydock" "1 1 0" Sample.structure) "absspct_Li_01"
              (initial_heap Sample.dir)) as [[[] h']|e] eqn:E;
    [|vm_compute in E; discriminate E].
  exists h'. split; [reflexivity|].
  assert (Ha : Json.assoc "absspct_Li_01" (_child_archives (initial_heap Sample.dir))
               = Some EntryArchive.empty) by reflexivity.
  assert (Hs : Json.get (Sample.config "haydock" "1 1 0" Sample.structure) "structure"
               = Ok Sample.structure) by reflexivity.
  assert (Ht : Json.truthy Sample.structure = true) by reflexivity.
  exact (proj1 (child_references _ _ _ _ _ _ _ _ _ _ _ Ha Hs Ht E)).
Defined.

(** ** parse_photon_workflow *)

Ltac heap_simpl_in H :=
  cbn [set_root set_child add_log archive _child_archives log
       EntryArchive.run EntryArchive.workflow2 EntryArchive.empty
       Run.program Run.system Run.method Run.calculation Run.empty
       add_method add_system add_calculation add_photon_method photon_method
       m_xpath_method0_photon m_xpath_program m_xpath_system
       Method.photon Method.empty app] in H.

Lemma get_archive_heap (a : aref) (h h' : heap) (x : EntryArchive.t) :
  get_archive a h = Ok (x, h') -> h' = h.
Proof.
  destruct a; cbn [get_archive].
  - now intros [= _ <-].
  - destruct (Json.assoc key _); [now intros [= _ <-] | discriminate].
Qed.

Lemma task_step_cases (photon_archive : list aref) (input_structure : System.t)
  (h : heap) (arch : aref) (spectra : list Spectra.t) (outputs : list Link.t)
  (tasks : list (TaskReference.t workflow))
  (res : list Spectra.t * list Link.t * list (TaskReference.t workflow)) :
  task_step photon_archive input_structure (spectra, outputs, tasks) arch h = Ok res ->
  res = (spectra, outputs, tasks)
  \/ exists sp out tk,
      res = (spectra ++ [sp], outputs ++ [out], tasks ++ [tk])
      /\ TaskReference.outputs tk = [out].
Proof.
  unfold task_step. intros H.
  bind_inv H. destruct (EntryArchive.workflow2 v) as [w|].
  - repeat bind_inv H. inversion H; subst res. right.
    eexists _, _, _. split; reflexivity.
  - inversion H. now left.
Qed.

Lemma task_loop_counts (photon_archive : list aref) (input_structure : System.t)
  (h : heap) (todo : list aref) :
  forall spectra outputs tasks res,
    task_loop photon_archive input_structure todo (spectra, outputs, tasks) h = Ok res ->
    exists ds dto dt,
      res = (spectra ++ ds, outputs ++ dto, tasks ++ dt)
      /\ length ds = length dt
      /\ dto = flat_map TaskReference.outputs dt
      /\ (length dt <= length todo)%nat.
Proof.
  induction todo as [|arch tl IH]; intros spectra outputs tasks res H.
  - cbn in H. inversion H; subst res. exists [], [], [].
    rewrite !app_nil_r. repeat split. cbn. lia.
  - cbn [task_loop] in H. bind_inv H.
    destruct (task_step_cases _ _ _ _ _ _ _ _ E)
      as [-> | (sp & out & tk & -> & Hout)].
    + destruct (IH _ _ _ _ H) as (ds & dto & dt & -> & Hl & Hf & Hle).
      exists ds, dto, dt. repeat split; auto. cbn. lia.
    + destruct (IH _ _ _ _ H) as (ds & dto & dt & -> & Hl & Hf & Hle).
      exists (sp :: ds), (out :: dto), (tk :: dt).
      rewrite <- !app_assoc. cbn [app]. repeat split.
      * cbn. now rewrite Hl.
      * cbn [flat_map]. rewrite Hout. cbn [app]. now rewrite Hf.
      * cbn. lia.
Qed.

Lemma parse_photon_workflow_frame (data : json) (photon_archive : list aref)
  (h h' : heap) :
  parse_photon_workflow data photon_archive Root h = Ok (tt, h') ->
  _child_archives h' = _child_archives h
  /\ (log h' = log h
      \/ (photon_archive = [] /\ log h' = log h ++ [(LogWarning, no_children_warning)]))
  /\ exists r m w,
      EntryArchive.run (archive h') = EntryArchive.run (archive h) ++ [r]
      /\ Run.method r = [m]
      /\ Run.calculation r = []
      /\ EntryArchive.workflow2 (archive h') = Some (PhotonPolarizationWorkflow w)
      /\ PhotonPolarization.method w = Some m
      /\ PhotonPolarization.n_polarizations w = length photon_archive
      /\ (length (PhotonPolarization.tasks w) <= length photon_archive)%nat
      /\ length (PhotonPolarization.spectrum_polarization w)
         = length (PhotonPolarization.tasks w)
      /\ PhotonPolarization.outputs w
         = flat_map TaskReference.outputs (PhotonPolarization.tasks w).
Proof.
  unfold parse_photon_workflow. intros H.
  rewrite bind_run, create_run_root in H. rewrite bind_run in H.
  match type of H with
  | context [match ?pre with Ok _ => _ | Raise _ => _ end] =>
      destruct pre as [[[] h2]|e] eqn:Hpre; [|discriminate H]
  end.
  assert (Hh2 : _child_archives h2 = _child_archives h
                /\ (log h2 = log h
                    \/ (photon_archive = []
                        /\ log h2 = log h ++ [(LogWarning, no_children_warning)]))
                /\ EntryArchive.workflow2 (archive h2)
                   = EntryArchive.workflow2 (archive h)
                /\ exists r2,
                    EntryArchive.run (archive h2)
                    = EntryArchive.run (archive h) ++ [r2]
                    /\ Run.method r2 = [] /\ Run.calculation r2 = []).
  { destruct photon_archive as [|first rest].
    - rewrite bind_run in Hpre. unfold logger at 1 in Hpre.
      erewrite update_run_root in Hpre by reflexivity.
      inversion Hpre; subst h2. cbn. repeat split; auto.
      eexists. repeat split.
    - rewrite bind_run in Hpre.
      destruct (get_archive first _) as [[a0 h1]|e] eqn:Hg; [|discriminate Hpre].
      apply get_archive_heap in Hg. subst h1.
      rewrite bind_run in Hpre. unfold St.lift at 1 in Hpre.
      destruct (Py.index (EntryArchive.run a0) (-1)) as [r0|e]; [|discriminate Hpre].
      destruct (m_xpath_program r0 && m_xpath_system r0).
      + erewrite update_run_root in Hpre by reflexivity.
        inversion Hpre; subst h2. cbn. repeat split; auto.
        eexists. repeat split.
      + inversion Hpre; subst h2. cbn. repeat split; auto.
        eexists. repeat split. }
  destruct Hh2 as (Hc2 & Hlog2 & Hwf2 & r2 & Hrun2 & Hm2 & Hcalc2).
  rewrite bind_run in H. rewrite (parse_method_root data h2 _ r2 Hrun2) in H.
  destruct (method_section data _) as [m|e]; [|discriminate H].
  rewrite bind_run in H. cbn [get_archive] in H. heap_simpl_in H.
  rewrite bind_run in H. unfold St.lift at 1 in H. rewrite index_last in H.
  rewrite bind_run in H. unfold St.lift at 1 in H. heap_simpl_in H.
  destruct (Py.index (Run.system r2) (-1)) as [input_structure|e];
    [|discriminate H].
  rewrite bind_run in H. unfold St.lift at 1 in H. rewrite index_last in H.
  rewrite bind_run in H.
  destruct (task_loop _ _ _ _ _) as [res|e] eqn:Hloop; [|discriminate H].
  destruct (task_loop_counts _ _ _ _ _ _ _ _ Hloop)
    as (ds & dto & dt & -> & Hl & Hf & Hle).
  cbn [app] in H. unfold set_workflow2 in H. rewrite bind_run in H.
  cbn [get_archive set_archive] in H. heap_simpl_in H.
  inversion H; subst h'. clear H. heap_simpl.
  split; [exact Hc2|]. split; [exact Hlog2|].
  eexists (add_method r2 m), m, _. split; [reflexivity|].
  split; [cbn; now rewrite Hm2|]. split; [exact Hcalc2|].
  split; [reflexivity|]. cbn. repeat split; auto.
Qed.

(** X5: an aggregation that returns has not touched any child archive.  It
    has appended exactly one run to the workflow archive, holding one
    method section and no calculation, and set a PhotonPolarization
    workflow whose method is that method section, whose number of
    polarizations is the number of children given, with at most one task
    per child, as many spectra as tasks, and as outputs the outputs of its
    tasks, in order.  Only the warning of the empty case can be logged. *)
Theorem aggregation_frame (data : json) (photon_archive : list aref)
  (h h' : heap) :
  parse_photon_workflow data photon_archive Root h = Ok (tt, h') ->
  _child_archives h' = _child_archives h
  /\ (log h' = log h
      \/ (photon_archive = [] /\ log h' = log h ++ [(LogWarning, no_children_warning)]))
  /\ exists r m w,
      EntryArchive.run (archive h') = EntryArchive.run (archive h) ++ [r]
      /\ Run.method r = [m]
      /\ Run.calculation r = []
      /\ EntryArchive.workflow2 (archive h') = Some (PhotonPolarizationWorkflow w)
      /\ PhotonPolarization.method w = Some m
      /\ PhotonPolarization.n_polarizations w = length photon_archive
      /\ (length (PhotonPolarization.tasks w) <= length photon_archive)%nat
      /\ length (PhotonPolarization.spectrum_polarization w)
         = length (PhotonPolarization.tasks w)
      /\ PhotonPolarization.outputs w
         = flat_map TaskReference.outputs (PhotonPolarization.tasks w).
Proof. exact (parse_photon_workflow_frame data photon_archive h h'). Qed.

Lemma aggregation_frame_witness :
  exists h',
    parse_photon_workflow (Sample.config "haydock" "1 1 0" Sample.structure) [] Root
      (Heap [("absspct_Li_01", EntryArchive.empty)] EntryArchive.empty [])
    = Ok (tt, h')
    /\ _child_archives h' = [("absspct_Li_01", EntryArchive.empty)].
Proof.
  destruct (parse_photon_workflow (Sample.config "haydock" "1 1 0" Sample.structure)
              [] Root
              (Heap [("absspct_Li_01", EntryArchive.empty)] EntryArchive.empty []))
    as [[[] h']|e] eqn:E; [|vm_compute in E; discriminate E].
  exists h'. split; [reflexivity|].
  exact (proj1 (aggregation_frame _ _ _ _ E)).
Defined.

(** ** The whole run *)

Lemma assoc_in_keys {A} (k : string) (a : A) (l : list (string * A)) :
  Json.assoc k l = Some a -> In k (map fst l).
Proof.
  induction l as [|[k' w] tl IH]; simpl; [discriminate|].
  destruct (String.eqb_spec k k') as [->|_]; auto.
Qed.

Lemma run_parser_inv (listdir : list string)
  (photon_parser : string -> PhotonResults.t)
  (spectra_parser : string -> option (list (list Q)))
  (lanczos_parser : string -> option (list lval))
  (chemical_symbols : list string) (data : json) (h : heap) :
  NoDup listdir ->
  run_parser listdir photon_parser spectra_parser lanczos_parser
    chemical_symbols (Some data) = Ok h ->
  let keys := StringSort.sort (filter is_spectra_file listdir) in
  exists h1,
    parse_photon_workflow data (map Child keys) Root h1 = Ok (tt, h)
    /\ archive h1 = EntryArchive.empty
    /\ map fst (_child_archives h1) = keys
    /\ forall k, In k keys ->
         exists r full,
           child_run listdir photon_parser spectra_parser lanczos_parser
             chemical_symbols data k = Ok (r, full)
           /\ Json.assoc k (_child_archives h1)
              = Some (child_after EntryArchive.empty r full).
Proof.
  intros Hnd Hrun keys.
  assert (Hndk : NoDup keys).
  { eapply Permutation_NoDup; [apply StringSort.Permuted_sort|].
    now apply NoDup_filter. }
  destruct (initial_heap_keys listdir) as (Hkeys0 & Hroot0 & Hempty).
  fold keys in Hkeys0, Hempty.
  unfold run_parser in Hrun.
  destruct (parse _ _ _ _ _ _ _) as [[[] h2]|e] eqn:Hp; inversion Hrun; subst h2.
  clear Hrun. unfold parse in Hp. rewrite bind_run in Hp. rewrite Hkeys0 in Hp.
  rewrite bind_run in Hp.
  destruct (St.for_each keys _ _) as [[[] h1]|e] eqn:Hloop; [|discriminate Hp].
  destruct (children_loop _ _ _ _ _ _ keys _ _ Hndk
              (fun k Hk => ex_intro _ _ (Hempty k Hk)) Hloop)
    as (Hk1 & Hroot1 & _ & Hin1).
  exists h1. split; [exact Hp|]. split; [congruence|]. split; [congruence|].
  intros k Hk. destruct (Hin1 k Hk) as (a & r & full & Ha & Hr & Hfin).
  rewrite (Hempty k Hk) in Ha. inversion Ha; subst a.
  exists r, full. split; assumption.
Qed.

Lemma child_run_no_structure (listdir : list string)
  (photon_parser : string -> PhotonResults.t)
  (spectra_parser : string -> option (list (list Q)))
  (lanczos_parser : string -> option (list lval))
  (chemical_symbols : list string) (data : json) (k : string)
  (structure : json) (r : Run.t) (full : bool) :
  Json.get data "structure" = Ok structure ->
  Json.truthy structure = false ->
  child_run listdir photon_parser spectra_parser lanczos_parser
    chemical_symbols data k = Ok (r, full) ->
  full = false /\ Run.system r = [].
Proof.
  intros Hs Ht H. unfold child_run in H. bind_inv H. rewrite Hs in H.
  cbn [Res.bind] in H. rewrite Ht in H. cbn [negb] in H.
  inversion H; subst. split; reflexivity.
Qed.

(** X6: the error logged for a missing structure is not the end of it.
    Over a directory of distinct names with at least one spectra file, a
    configuration whose structure is missing, null or empty makes the run
    raise: every child stops after its program section, and the
    aggregation finds no system to refer to. *)
Theorem run_without_structure_raises (listdir : list string)
  (photon_parser : string -> PhotonResults.t)
  (spectra_parser : string -> option (list (list Q)))
  (lanczos_parser : string -> option (list lval))
  (chemical_symbols : list string) (data : json) (structure : json) (f : string) :
  NoDup listdir ->
  In f listdir -> is_spectra_file f = true ->
  Json.get data "structure" = Ok structure ->
  Json.truthy structure = false ->
  exists e,
    run_parser listdir photon_parser spectra_parser lanczos_parser
      chemical_symbols (Some data) = Raise e.
Proof.
  intros Hnd Hf Hsf Hs Ht.
  destruct (run_parser _ _ _ _ _ _) as [h|e] eqn:Hrun; [exfalso | eauto].
  destruct (run_parser_inv _ _ _ _ _ _ _ Hnd Hrun) as (h1 & Hp & _ & _ & Hin).
  assert (Hk : In f (StringSort.sort (filter is_spectra_file listdir))).
  { eapply Permutation_in; [apply StringSort.Permuted_sort|].
    apply filter_In. now split. }
  destruct (StringSort.sort (filter is_spectra_file listdir)) as [|k0 rest];
    [destruct Hk|].
  destruct (Hin k0 (or_introl eq_refl)) as (r0 & full & Hr0 & Ha0).
  destruct (child_run_no_structure _ _ _ _ _ _ _ _ _ _ Hs Ht Hr0) as [-> Hsys].
  cbn [map] in Hp.
  rewrite (workflow_first_incomplete data k0 (map Child rest) h1
             _ [] r0 Ha0 eq_refl (or_intror Hsys)) in Hp.
  destruct (method_section data None); discriminate Hp.
Qed.

Lemma run_without_structure_raises_witness :
  exists e,
    Sample.run Sample.dir (Some (Sample.config "haydock" "1 1 0" (JList [])))
    = Raise e.
Proof.
  apply (run_without_structure_raises Sample.dir Sample.photons Sample.spectra_tab
           Sample.lanczos Sample.symbols
           (Sample.config "haydock" "1 1 0" (JList [])) (JList []) "absspct_Li_01").
  - exact sample_dir_nodup.
  - cbn. tauto.
  - reflexivity.
  - reflexivity.
  - reflexivity.
Defined.

Lemma child_run_shared (listdir : list string)
  (photon_parser : string -> PhotonResults.t)
  (spectra_parser : string -> option (list (list Q)))
  (lanczos_parser : string -> option (list lval))
  (chemical_symbols : list string) (data : json) (k1 k2 : string)
  (r1 r2 : Run.t) (f1 f2 : bool) :
  child_run listdir photon_parser spectra_parser lanczos_parser
    chemical_symbols data k1 = Ok (r1, f1) ->
  child_run listdir photon_parser spectra_parser lanczos_parser
    chemical_symbols data k2 = Ok (r2, f2) ->
  f1 = f2
  /\ Run.program r1 = Run.program r2
  /\ Run.system r1 = Run.system r2
  /\ nth_error (Run.method r1) 1 = nth_error (Run.method r2) 1.
Proof.
  unfold child_run. intros H1 H2.
  bind_inv H1. bind_inv H1. bind_inv H2. bind_inv H2.
  assert (v1 = v) by congruence. subst v1.
  assert (v2 = v0) by congruence. subst v2.
  destruct (Json.truthy v0); cbn [negb] in H1, H2.
  - repeat bind_inv H1. repeat bind_inv H2.
    repeat match goal with
           | Ea : ?x = Ok ?a, Eb : ?x = Ok ?b |- _ =>
               rewrite Ea in Eb; inversion Eb; subst; clear Eb
           end.
    inversion H1; inversion H2; subst. repeat split.
  - inversion H1; inversion H2; subst. repeat split.
Qed.

(** X7: after a run that completes, all child archives agree on what comes
    from the shared configuration: each holds exactly one run, and any two
    of these runs have the same program section, the same system sections
    and the same second method section (the parameters).  Copying program
    and system from the first child therefore loses nothing. *)
Theorem children_share_configuration (listdir : list string)
  (photon_parser : string -> PhotonResults.t)
  (spectra_parser : string -> option (list (list Q)))
  (lanczos_parser : string -> option (list lval))
  (chemical_symbols : list string) (data : json) (h : heap)
  (k1 k2 : string) (a1 a2 : EntryArchive.t) :
  NoDup listdir ->
  run_parser listdir photon_parser spectra_parser lanczos_parser
    chemical_symbols (Some data) = Ok h ->
  Json.assoc k1 (_child_archives h) = Some a1 ->
  Json.assoc k2 (_child_archives h) = Some a2 ->
  exists r1 r2,
    EntryArchive.run a1 = [r1] /\ EntryArchive.run a2 = [r2]
    /\ EntryArchive.workflow2 a1 = EntryArchive.workflow2 a2
    /\ Run.program r1 = Run.program r2
    /\ Run.system r1 = Run.system r2
    /\ nth_error (Run.method r1) 1 = nth_error (Run.method r2) 1.
Proof.
  intros Hnd Hrun Ha1 Ha2.
  destruct (run_parser_inv _ _ _ _ _ _ _ Hnd Hrun) as (h1 & Hp & _ & Hkeys & Hin).
  destruct (parse_photon_workflow_frame _ _ _ _ Hp) as (Hc & _).
  rewrite Hc in Ha1, Ha2.
  pose proof (assoc_in_keys _ _ _ Ha1) as Hk1. rewrite Hkeys in Hk1.
  pose proof (assoc_in_keys _ _ _ Ha2) as Hk2. rewrite Hkeys in Hk2.
  destruct (Hin k1 Hk1) as (r1 & f1 & Hr1 & Hb1).
  destruct (Hin k2 Hk2) as (r2 & f2 & Hr2 & Hb2).
  rewrite Hb1 in Ha1. rewrite Hb2 in Ha2.
  inversion Ha1; subst a1. inversion Ha2; subst a2.
  destruct (child_run_shared _ _ _ _ _ _ _ _ _ _ _ _ Hr1 Hr2)
    as (-> & Hprog & Hsys & Hmeth).
  exists r1, r2. repeat split; assumption.
Qed.

Lemma children_share_configuration_witness :
  exists h a1 a2 r1 r2,
    Sample.run Sample.dir (Some (Sample.config "haydock" "1 1 0" Sample.structure))
    = Ok h
    /\ Json.assoc "absspct_Li_01" (_child_archives h) = Some a1
    /\ Json.assoc "absspct_Li_02" (_child_archives h) = Some a2
    /\ EntryArchive.run a1 = [r1] /\ EntryArchive.run a2 = [r2]
    /\ Run.system r1 = Run.system r2.
Proof.
  destruct (Sample.run Sample.dir
              (Some (Sample.config "haydock" "1 1 0" Sample.structure)))
    as [h|e] eqn:E; [|vm_compute in E; discriminate E].
  destruct (Json.assoc "absspct_Li_01" (_child_archives h)) as [a1|] eqn:E1;
    [|vm_compute in E; inversion E; subst h; discriminate E1].
  destruct (Json.assoc "absspct_Li_02" (_child_archives h)) as [a2|] eqn:E2;
    [|vm_compute in E; inversion E; subst h; discriminate E2].
  destruct (children_share_configuration _ _ _ _ _ _ _ _ _ _ _
              sample_dir_nodup E E1 E2)
    as (r1 & r2 & H1 & H2 & _ & _ & Hs & _).
  exists h, a1, a2, r1, r2. repeat split; assumption.
Defined.

(** X8: what the workflow of a completed run over at least one spectra
    file refers to.  The run of the workflow archive takes its program and
    its systems from the first child in key order, holds the method built
    from the configuration with no starting method, and no calculation.
    The workflow inputs are that first system and that method.  For the
    i-th key, the i-th spectrum of [spectrum_polarization] is the spectrum
    of that child's calculation, and the inputs of the i-th task are the
    same first system and the child's own first method section (the one
    with the photon). *)
Theorem workflow_links (listdir : list string)
  (photon_parser : string -> PhotonResults.t)
  (spectra_parser : string -> option (list (list Q)))
  (lanczos_parser : string -> option (list lval))
  (chemical_symbols : list string) (data : json) (h : heap)
  (k0 : string) (rest : list string) :
  NoDup listdir ->
  run_parser listdir photon_parser spectra_parser lanczos_parser
    chemical_symbols (Some data) = Ok h ->
  StringSort.sort (filter is_spectra_file listdir) = k0 :: rest ->
  exists r0 s0 r m w,
    Json.assoc k0 (_child_archives h)
    = Some (EntryArchive.Make [r0] (Some SinglePoint))
    /\ Run.system r0 = [s0]
    /\ archive h = EntryArchive.Make [r] (Some (PhotonPolarizationWorkflow w))
    /\ Run.program r = Run.program r0
    /\ Run.system r = Run.system r0
    /\ Run.method r = [m]
    /\ Run.calculation r = []
    /\ method_section data None = Ok m
    /\ PhotonPolarization.inputs w
       = [Link.Make "Input structure" (SecSystem s0);
          Link.Make "Input BSE methodology" (SecMethod m)]
    /\ forall i k,
        nth_error (k0 :: rest) i = Some k ->
        exists rk mk c sp t,
          Json.assoc k (_child_archives h)
          = Some (EntryArchive.Make [rk] (Some SinglePoint))
          /\ hd_error (Run.method rk) = Some mk
          /\ Run.calculation rk = [c]
          /\ Calculation.spectra c = [sp]
          /\ nth_error (PhotonPolarization.spectrum_polarization w) i = Some sp
          /\ nth_error (PhotonPolarization.tasks w) i = Some t
          /\ TaskReference.inputs t
             = [Link.Make "Input structure" (SecSystem s0);
                Link.Make "Input photon parameters" (SecMethod mk)].
Proof.
  intros Hnd Hrun Hkeys.
  destruct (run_parser_inv _ _ _ _ _ _ _ Hnd Hrun) as (h1 & Hp & Hroot1 & _ & Hin).
  rewrite Hkeys in Hp, Hin.
  destruct (Hin k0 (or_introl eq_refl)) as (r0 & full & Hr0 & Ha0).
  destruct (child_run_shape _ _ _ _ _ _ _ _ _ Hr0)
    as [[-> Hsys] | [-> (p0 & s0 & m00 & m10 & spx0 & lz0 & -> & Hm0)]].
  { exfalso. cbn [map] in Hp.
    rewrite (workflow_first_incomplete data k0 (map Child rest) h1
               _ [] r0 Ha0 eq_refl (or_intror Hsys)) in Hp.
    destruct (method_section data None); discriminate Hp. }
  assert (Hall : forall k, In k (k0 :: rest) ->
                   exists i, ci_key i = k /\ complete h1 i).
  { intros k Hk. destruct (Hin k Hk) as (r & full & Hr & Hfin).
    assert (full = true)
      by (eapply child_run_full_indep; [exact Hr | exact Hr0]).
    subst full.
    destruct (child_run_shape _ _ _ _ _ _ _ _ _ Hr)
      as [[Hf _] | [_ (p & s & m0 & m1 & spx & lz & -> & _)]];
      [discriminate Hf|].
    exists (ChildInfo k p s m0
              (Calculation.Make (Some 0%nat) (Some 1%nat) [spx] lz) spx).
    split; [reflexivity|]. exists m1. split; [exact Hfin | reflexivity]. }
  destruct (infos_exist h1 (k0 :: rest) Hall) as (infos & Hmap & Hcomp).
  destruct infos as [|i0 irest]; [discriminate Hmap|].
  assert (Hm : exists m, method_section data None = Ok m).
  { rewrite (method_section_starting data (Some 0%nat)) in Hm0.
    destruct (method_section data None) as [m|e]; [eauto | discriminate Hm0]. }
  destruct Hm as [m Hm].
  assert (Hpa : map Child (k0 :: rest)
                = map (fun i => Child (ci_key i)) (i0 :: irest))
    by (rewrite <- Hmap; now rewrite map_map).
  rewrite Hpa in Hp.
  rewrite (aggregation_complete data h1 i0 irest m Hcomp Hm) in Hp.
  injection Hp as Hh. subst h. rewrite Hroot1.
  cbn [_child_archives archive set_root EntryArchive.run app].
  (* the first child *)
  pose proof (Forall_inv Hcomp) as (m1 & Hi0 & Hs0).
  assert (Hk0 : ci_key i0 = k0) by (cbn in Hmap; congruence).
  rewrite Hk0 in Hi0. rewrite Ha0 in Hi0. cbn [child_after EntryArchive.run
    EntryArchive.empty app] in Hi0. inversion Hi0; subst.
  eexists _, _, _, m, _. split; [exact Ha0|]. split; [reflexivity|].
  split; [reflexivity|]. split; [reflexivity|]. split; [reflexivity|].
  split; [reflexivity|]. split; [reflexivity|]. split; [exact Hm|].
  split; [reflexivity|].
  intros i k Hi.
  assert (Hinfo : exists inf, nth_error (i0 :: irest) i = Some inf
                              /\ ci_key inf = k).
  { rewrite <- Hmap, nth_error_map in Hi.
    destruct (nth_error (i0 :: irest) i) as [inf|]; [|discriminate Hi].
    exists inf. split; [reflexivity|]. now inversion Hi. }
  destruct Hinfo as (inf & Hnth & Hkey).
  pose proof (proj1 (Forall_forall _ _) Hcomp inf (nth_error_In _ _ Hnth))
    as (m1' & Ha & Hs).
  rewrite Hkey in Ha.
  eexists _, (ci_photon_method inf), (ci_calculation inf), (ci_spectrum inf), _.
  split; [exact Ha|]. split; [reflexivity|]. split; [reflexivity|].
  split; [exact Hs|].
  cbn [PhotonPolarization.spectrum_polarization PhotonPolarization.tasks].
  repeat match goal with
         | |- context [?f i0 :: map ?f irest] =>
             change (f i0 :: map f irest) with (map f (i0 :: irest))
         end.
  split; [rewrite nth_error_map, Hnth; reflexivity|].
  split; [rewrite nth_error_map, Hnth; reflexivity|]. reflexivity.
Qed.

Lemma workflow_links_witness :
  exists h r w,
    Sample.run Sample.dir (Some (Sample.config "haydock" "1 1 0" Sample.structure))
    = Ok h
    /\ archive h = EntryArchive.Make [r] (Some (PhotonPolarizationWorkflow w))
    /\ Run.calculation r = [].
Proof.
  destruct (Sample.run Sample.dir
              (Some (Sample.config "haydock" "1 1 0" Sample.structure)))
    as [h|e] eqn:E; [|vm_compute in E; discriminate E].
  assert (Hk : StringSort.sort (filter is_spectra_file Sample.dir)
               = "absspct_Li_01" :: ["absspct_Li_02"]) by reflexivity.
  destruct (workflow_links _ _ _ _ _ _ _ _ _ sample_dir_nodup E Hk)
    as (r0 & s0 & r & m & w & _ & _ & Hroot & _ & _ & _ & Hcalc & _).
  exists h, r, w. split; [reflexivity|]. split; [exact Hroot | exact Hcalc].
Defined.

(** ** parse_scc: spectra and lanczos records *)

Lemma mapM_length {A B} (f : A -> result B) (l : list A) (ys : list B) :
  Res.mapM f l = Ok ys -> length ys = length l.
Proof.
  revert ys. induction l as [|x tl IH]; intros ys H; simpl in H.
  - now inversion H.
  - destruct (f x); [|discriminate H].
    destruct (Res.mapM f tl); [|discriminate H].
    inversion H; subst. simpl. f_equal. now apply IH.
Qed.

Lemma mapM_in {A B} (f : A -> result B) (l : list A) (ys : list B) (x : A) :
  Res.mapM f l = Ok ys -> In x l -> exists y, f x = Ok y.
Proof.
  revert ys. induction l as [|x' tl IH]; intros ys H Hin; simpl in H.
  - destruct Hin.
  - destruct (f x') eqn:Fx; [|discriminate H].
    destruct (Res.mapM f tl) eqn:Ftl; [|discriminate H].
    destruct Hin as [<- | Hin]; [eauto | eapply IH; eauto].
Qed.

Lemma index_ok_bound {A} (l : list A) (i : Z) (x : A) :
  Py.index l i = Ok x -> 0 <= i -> i < Z.of_nat (length l).
Proof.
  unfold Py.index. intros H Hi.
  assert (E : (i <? 0) = false) by (apply Z.ltb_ge; lia).
  cbv zeta in H. rewrite E in H. cbv beta iota in H. rewrite E in H. cbn [orb] in H.
  destruct (Z.of_nat (length l) <=? i) eqn:E2; [discriminate H|].
  apply Z.leb_gt in E2. exact E2.
Qed.

Lemma index_nth_inv {A} (l : list A) (i : Z) (x : A) :
  Py.index l i = Ok x -> 0 <= i -> nth_error l (Z.to_nat i) = Some x.
Proof.
  unfold Py.index. intros H Hi.
  assert (E : (i <? 0) = false) by (apply Z.ltb_ge; lia).
  cbv zeta in H. rewrite E in H. cbv beta iota in H. rewrite E in H. cbn [orb] in H.
  destruct (Z.of_nat (length l) <=? i); [discriminate H|].
  destruct (nth_error l (Z.to_nat i)); [now inversion H | discriminate H].
Qed.

Lemma column_ok (k : nat) (t : list (list Q)) (ys : list Q) :
  column k t = Ok ys ->
  length ys = length t
  /\ forall j row, nth_error t j = Some row ->
                   nth_error row k <> None /\ nth_error ys j = nth_error row k.
Proof.
  revert ys. induction t as [|row0 tl IH]; intros ys H.
  - inversion H. split; [reflexivity|]. intros j row Hj. destruct j; discriminate Hj.
  - rewrite column_cons in H.
    destruct (nth_error row0 k) as [x|] eqn:Hx; [|discriminate H].
    destruct (column k tl) as [ys'|e]; [|discriminate H].
    inversion H; subst ys. destruct (IH ys' eq_refl) as [Hl Hn].
    split; [cbn; now rewrite Hl|].
    intros [|j] row Hj; cbn in Hj.
    + inversion Hj; subst row. rewrite Hx. split; [discriminate | reflexivity].
    + cbn. now apply Hn.
Qed.

(** X9: a spectrum that is parsed comes from a table in which every row
    has at least three columns; its number of energies, the length of its
    energies and the length of its intensities all equal the number of
    rows, and the j-th energy and intensity are columns 0 and 2 of the
    j-th row. *)
Theorem spectra_shape (spectra_parser : string -> option (list (list Q)))
  (data : json) (path : string) (s : Spectra.t) :
  parse_spectra spectra_parser data path = Ok s ->
  exists t energies intensities,
    spectra_parser path = Some t
    /\ Spectra.n_energies s = Some (length t)
    /\ Spectra.excitation_energies s = Some (Quantity energies eV)
    /\ Spectra.intensities s = Some intensities
    /\ length energies = length t
    /\ length intensities = length t
    /\ forall j row,
        nth_error t j = Some row ->
        (3 <= length row)%nat
        /\ nth_error energies j = nth_error row 0
        /\ nth_error intensities j = nth_error row 2.
Proof.
  intros H. unfold parse_spectra in H.
  bind_inv H. bind_inv H. bind_inv H.
  destruct (spectra_parser path) as [t|]; cbn [Res.bind] in H; [|discriminate H].
  bind_inv H. bind_inv H. inversion H; subst s. clear H.
  match goal with
  | He : column 0 t = Ok ?e, Hi : column 2 t = Ok ?i |- _ =>
      destruct (column_ok _ _ _ He) as [Hle Hne];
      destruct (column_ok _ _ _ Hi) as [Hli Hni];
      exists t, e, i
  end.
  repeat split; auto.
  - destruct (Hni j row H) as [Hsome _]. apply nth_error_Some in Hsome. lia.
  - now apply Hne.
  - now apply Hni.
Qed.

Lemma spectra_shape_witness :
  exists s t,
    parse_spectra Sample.spectra_tab
      (Sample.config "haydock" "1 1 0" Sample.structure) "absspct_Li_01" = Ok s
    /\ Sample.spectra_tab "absspct_Li_01" = Some t
    /\ Spectra.n_energies s = Some (length t).
Proof.
  destruct (parse_spectra Sample.spectra_tab
              (Sample.config "haydock" "1 1 0" Sample.structure) "absspct_Li_01")
    as [s|e] eqn:E; [|vm_compute in E; discriminate E].
  destruct (spectra_shape _ _ _ _ E) as (t & en & it & Ht & Hn & _).
  exists s, t. split; [reflexivity|]. split; assumption.
Defined.

Lemma range_last (n : Z) : 2 <= n -> In n (range 2 (n + 1)).
Proof.
  intros Hn. unfold range. apply in_map_iff.
  exists (Z.to_nat (n - 2)). split; [lia|]. apply in_seq. lia.
Qed.

Lemma range_length (a b : Z) : length (range a b) = Z.to_nat (b - a).
Proof. unfold range. now rewrite length_map, length_seq. Qed.

(** X10: when a lanczos file is parsed and its stored dimension is at
    least 1, the records after the first are split without loss or
    overlap: the matrix has as many rows as the stored dimension, the
    rows of the matrix and the eigenvalue rows together number one less
    than the records of the file, and the first matrix row is the second
    record followed by 0.0. *)
Theorem lanczos_partition (data_lancz : list lval) (l : Lanczos.t) :
  parse_lanczos data_lancz = Ok l ->
  1 <= Lanczos.x_ocean_n_tridiagonal_matrix l ->
  Z.of_nat (length (Lanczos.x_ocean_tridiagonal_matrix l))
  = Lanczos.x_ocean_n_tridiagonal_matrix l
  /\ (length (Lanczos.x_ocean_tridiagonal_matrix l)
      + length (Lanczos.x_ocean_eigenvalues l) + 1 = length data_lancz)%nat
  /\ Lanczos.x_ocean_eigenvalues l
     = skipn (S (length (Lanczos.x_ocean_tridiagonal_matrix l))) data_lancz
  /\ exists rec1,
      nth_error data_lancz 1 = Some rec1
      /\ hd_error (Lanczos.x_ocean_tridiagonal_matrix l) = Some [rec1; LNum 0%Q].
Proof.
  intros H Hdim. unfold parse_lanczos in H.
  bind_inv H. bind_inv H. bind_inv H. bind_inv H. bind_inv H.
  inversion H; subst l. clear H.
  cbn [Lanczos.x_ocean_n_tridiagonal_matrix Lanczos.x_ocean_tridiagonal_matrix
       Lanczos.x_ocean_eigenvalues] in *.
  set (n := Py.int_of_Q v0 + 1) in *.
  pose proof (mapM_length _ _ _ E3) as Hlen. rewrite range_length in Hlen.
  assert (Hbound : n < Z.of_nat (length data_lancz)).
  { destruct (Z.eq_dec n 1) as [En|En].
    - rewrite En. eapply index_ok_bound; [exact E2 | lia].
    - assert (Hin : In n (range 2 (n + 1))) by (apply range_last; lia).
      destruct (mapM_in _ _ _ n E3 Hin) as [y Hy].
      apply bind_ok_inv in Hy. destruct Hy as (r & Hr & _).
      eapply index_ok_bound; [exact Hr | lia]. }
  pose proof (index_nth_inv _ _ _ E2 ltac:(lia)) as Hnth.
  change (Z.to_nat 1) with 1%nat in Hnth.
  cbn [length]. unfold Py.slice_from.
  assert (Es : (n + 1 <? 0) = false) by (apply Z.ltb_ge; lia).
  rewrite Es. rewrite length_skipn.
  replace (Z.to_nat (n + 1)) with (S (S (length v3))) by lia.
  repeat split; try lia.
  eexists. split; [exact Hnth | reflexivity].
Qed.

Lemma lanczos_partition_witness :
  exists l,
    parse_lanczos Sample.lanczos_rows = Ok l
    /\ (length (Lanczos.x_ocean_tridiagonal_matrix l)
        + length (Lanczos.x_ocean_eigenvalues l) + 1
        = length Sample.lanczos_rows)%nat.
Proof.
  destruct (parse_lanczos Sample.lanczos_rows) as [l|e] eqn:E;
    [|vm_compute in E; discriminate E].
  exists l. split; [reflexivity|].
  refine (proj1 (proj2 (lanczos_partition _ _ E _))).
  vm_compute in E. inversion E. vm_compute. discriminate.
Defined.

(** ** parse_photon_polarization: when the photon file is read *)

(** X11: exactly when a photon file is read without error.  The vectors
    must have matched at least once and the photon energy must have
    matched; if the operator is quad, NRIXS or qRaman a second vector must
    exist and becomes the momentum transfer, otherwise the momentum
    transfer stays unset whatever vectors follow.  The polarization is
    always the first vector and the energy is tagged with electron_volt.
    A missing operator is not an error. *)
Theorem parse_photon_ok_iff (photon_parser : string -> PhotonResults.t)
  (f : string) (p : Photon.t) :
  let r := photon_parser f in
  let op := PhotonResults.operator r in
  let needs_second :=
    opt_str_eqb op "quad" || opt_str_eqb op "NRIXS" || opt_str_eqb op "qRaman" in
  parse_photon photon_parser f = Ok p
  <-> exists v more e,
      PhotonResults.vectors r = Some (v :: more)
      /\ PhotonResults.photon_energy r = Some e
      /\ ((needs_second = false
           /\ p = Photon.Make op (Some v) None (Some (Quantity e electron_volt)))
          \/ (needs_second = true
              /\ exists q rest,
                  more = q :: rest
                  /\ p = Photon.Make op (Some v) (Some q)
                         (Some (Quantity e electron_volt)))).
Proof.
  cbv zeta. unfold parse_photon.
  destruct (photon_parser f) as [op vectors energy].
  cbn [PhotonResults.operator PhotonResults.vectors PhotonResults.photon_energy].
  set (needs := opt_str_eqb op "quad" || opt_str_eqb op "NRIXS"
                || opt_str_eqb op "qRaman").
  split.
  - intros H. destruct vectors as [[|v more]|]; cbn [Res.bind] in H.
    + rewrite index_nil in H. discriminate H.
    + rewrite index_head in H. cbn [Res.bind] in H.
      destruct needs.
      * destruct more as [|q rest]; [vm_compute in H; discriminate H|].
        rewrite (index_nth (v :: q :: rest) 1 q) in H by (try lia; reflexivity).
        cbn [Res.bind] in H.
        destruct energy as [e|]; cbn [Res.bind] in H; [|discriminate H].
        inversion H. exists v, (q :: rest), e. repeat split.
        right. split; [reflexivity|]. exists q, rest. split; reflexivity.
      * cbn [Res.bind] in H.
        destruct energy as [e|]; cbn [Res.bind] in H; [|discriminate H].
        inversion H. exists v, more, e. repeat split. left. split; reflexivity.
    + discriminate H.
  - intros (v & more & e & -> & -> & [[Hn ->] | [Hn (q & rest & -> & ->)]]).
    + rewrite index_head. cbn [Res.bind]. rewrite Hn. reflexivity.
    + rewrite index_head. cbn [Res.bind]. rewrite Hn.
      rewrite (index_nth (v :: q :: rest) 1 q) by (try lia; reflexivity).
      reflexivity.
Qed.

Lemma parse_photon_ok_iff_witness :
  parse_photon Sample.photons "photon2"
  = Ok (Photon.Make (Some "quad") (Some [0; 1; 0]%Q) (Some [0; 0; 1]%Q)
          (Some (Quantity (55 # 1) electron_volt))).
Proof.
  apply (proj2 (parse_photon_ok_iff Sample.photons "photon2" _)).
  exists [0; 1; 0]%Q, [[0; 0; 1]%Q], (55 # 1).
  split; [reflexivity|]. split; [reflexivity|]. right. split; [reflexivity|].
  exists [0; 0; 1]%Q, []. split; reflexivity.
Defined.

(** ** parse_method: edges and core hole *)

Lemma core_hole_nil (data : json) (ch : CoreHole.t) : core_hole data [] <> Ok ch.
Proof.
  intros H. unfold core_hole in H. repeat bind_inv H.
  match goal with
  | E : Py.index [] 0 = Ok _ |- _ => rewrite index_nil in E; discriminate E
  end.
Qed.

(** X12: a configuration whose [calc] has no [edges] entry, or an empty
    edge list, never yields a method section: with everything else in
    order the read of [edges[0]] raises an [IndexError]. *)
Theorem no_edges_no_method (data calc : json) :
  Json.getitem data "calc" = Ok calc ->
  Json.get_default calc "edges" (JList []) = Ok (JList []) ->
  parse_edges data = Ok []
  /\ (forall s m, method_section data s <> Ok m)
  /\ (forall e0 rest ch0,
         core_hole data (e0 :: rest) = Ok ch0 ->
         core_hole data [] = Raise IndexError).
Proof.
  intros Hc He.
  assert (Hp : parse_edges data = Ok []).
  { unfold parse_edges. rewrite Hc. cbn [Res.bind]. rewrite He. reflexivity. }
  split; [exact Hp|]. split.
  - intros s m Hm.
    destruct (method_section_blocks _ _ _ Hm)
      as (bp & ch & bse & _ & _ & _ & _ & _ & edges & Hed & Hch).
    rewrite Hp in Hed. inversion Hed; subst edges.
    exact (core_hole_nil _ _ Hch).
  - intros e0 rest ch0 H. unfold core_hole in *. repeat bind_inv H.
    repeat match goal with
           | E : ?r = Ok _ |- context [Res.bind ?r _] => rewrite E; cbn [Res.bind]
           end.
    now rewrite index_nil.
Qed.

Lemma no_edges_no_method_witness :
  parse_edges (JDict [("calc", JDict [("mode", JStr "xas")])]) = Ok [].
Proof.
  exact (proj1 (no_edges_no_method (JDict [("calc", JDict [("mode", JStr "xas")])])
                  (JDict [("mode", JStr "xas")]) eq_refl eq_refl)).
Defined.

Lemma index_ok_neg {A} (l : list A) (i : Z) (x : A) :
  Py.index l i = Ok x -> i < 0 -> - Z.of_nat (length l) <= i.
Proof.
  unfold Py.index. intros H Hi.
  assert (E : (i <? 0) = true) by (apply Z.ltb_lt; lia).
  cbv zeta in H. rewrite E in H. cbv beta iota in H.
  destruct (Z.of_nat (length l) + i <? 0) eqn:E2; [discriminate H|].
  apply Z.ltb_ge in E2. lia.
Qed.

Lemma mode_index (i : Z) (x : string) :
  Py.index mode_bse i = Ok x ->
  (x = "emission" /\ (i = 0 \/ i = -2)) \/ (x = "absorption" /\ (i = 1 \/ i = -1)).
Proof.
  intros H.
  assert (Hc : i <= -3 \/ i = -2 \/ i = -1 \/ i = 0 \/ i = 1 \/ 2 <= i) by lia.
  destruct Hc as [Hc | [-> | [-> | [-> | [-> | Hc]]]]].
  - exfalso. apply index_ok_neg in H; [|lia]. cbn in H. lia.
  - vm_compute in H. inversion H. left. split; [reflexivity | now right].
  - vm_compute in H. inversion H. right. split; [reflexivity | now right].
  - vm_compute in H. inversion H. left. split; [reflexivity | now left].
  - vm_compute in H. inversion H. right. split; [reflexivity | now left].
  - exfalso. apply index_ok_bound in H; [|lia]. cbn in H. lia.
Qed.

(** X13: a core-hole section that is built carries values from the fixed
    vocabularies only.  The strength entry is an integer or a boolean used
    as an index into [emission, absorption], negative indices included:
    0, -2 and false give emission; 1, -1 and true give absorption.  The
    solver entry is the string haydock, stored as lanczos-haydock, or the
    string gmres, stored as gmres.  The edge is K or L23. *)
Theorem core_hole_vocabulary (data : json) (edges : list (list Z)) (ch : CoreHole.t) :
  core_hole data edges = Ok ch ->
  exists strength solver_name,
    core_get data "strength" = Ok strength
    /\ core_get data "solver" = Ok (JStr solver_name)
    /\ ((CoreHole.mode ch = Some "emission"
         /\ (strength = JInt 0 \/ strength = JInt (-2) \/ strength = JBool false))
        \/ (CoreHole.mode ch = Some "absorption"
            /\ (strength = JInt 1 \/ strength = JInt (-1) \/ strength = JBool true)))
    /\ ((solver_name = "haydock" /\ CoreHole.solver ch = Some "lanczos-haydock")
        \/ (solver_name = "gmres" /\ CoreHole.solver ch = Some "gmres"))
    /\ (CoreHole.edge ch = Some "K" \/ CoreHole.edge ch = Some "L23").
Proof.
  intros H. unfold core_hole in H.
  apply bind_ok_inv in H. destruct H as (strength & Hs & H).
  apply bind_ok_inv in H. destruct H as (i & Hi & H).
  apply bind_ok_inv in H. destruct H as (mode & Hm & H).
  apply bind_ok_inv in H. destruct H as (sv & Hsv & H).
  apply bind_ok_inv in H. destruct H as (solver & Hsol & H).
  apply bind_ok_inv in H. destruct H as (edge0 & He0 & H).
  apply bind_ok_inv in H. destruct H as (edge & He & H).
  apply bind_ok_inv in H. destruct H as (broaden & Hb & H).
  inversion H; subst ch. clear H.
  cbn [CoreHole.mode CoreHole.solver CoreHole.edge].
  assert (Hsn : exists solver_name,
             sv = JStr solver_name
             /\ ((solver_name = "haydock" /\ solver = "lanczos-haydock")
                 \/ (solver_name = "gmres" /\ solver = "gmres"))).
  { destruct sv; try discriminate Hsol. exists s. split; [reflexivity|].
    unfold Json.subscript_in, _type_bse_map in Hsol. cbn [Json.assoc] in Hsol.
    destruct (String.eqb_spec s "haydock") as [->|_];
      [inversion Hsol; now left|].
    destruct (String.eqb_spec s "gmres") as [->|_];
      [inversion Hsol; now right | discriminate Hsol]. }
  destruct Hsn as (solver_name & -> & Hsolver).
  exists strength, solver_name. split; [exact Hs|]. split; [exact Hsv|].
  split; [|split].
  - destruct (mode_index _ _ Hm) as [[-> Hi'] | [-> Hi']]; [left | right];
      (split; [reflexivity|]);
      destruct strength; try discriminate Hi; cbn in Hi; inversion Hi; subst i.
    + destruct b; [destruct Hi'; discriminate | auto].
    + destruct Hi' as [-> | ->]; auto.
    + destruct b; [auto | destruct Hi'; discriminate].
    + destruct Hi' as [-> | ->]; auto.
  - destruct Hsolver as [[-> ->] | [-> ->]]; auto.
  - unfold Json.subscript_in, _core_level_map in He. cbn [Json.assoc] in He.
    destruct (String.eqb _ "[1, 0]"); [inversion He; now left|].
    destruct (String.eqb _ "[2, 1]"); [inversion He; now right | discriminate He].
Qed.

Lemma core_hole_vocabulary_witness :
  exists ch,
    core_hole (Sample.config "gmres" "1 2 1" Sample.structure) [[1; 2; 1]] = Ok ch
    /\ (CoreHole.edge ch = Some "K" \/ CoreHole.edge ch = Some "L23").
Proof.
  destruct (core_hole (Sample.config "gmres" "1 2 1" Sample.structure) [[1; 2; 1]])
    as [ch|e] eqn:E; [|vm_compute in E; discriminate E].
  exists ch. split; [reflexivity|].
  destruct (core_hole_vocabulary _ _ _ E) as (_ & _ & _ & _ & _ & _ & H).
  exact H.
Defined.

(** ** parse_system and the program section *)

Lemma mapM_forall {A B} (f : A -> result B) (l : list A) (ys : list B) (y : B) :
  Res.mapM f l = Ok ys -> In y ys -> exists x, In x l /\ f x = Ok y.
Proof.
  revert ys. induction l as [|x tl IH]; intros ys H Hin; simpl in H.
  - inversion H; subst. destruct Hin.
  - destruct (f x) as [y0|] eqn:Fx; [|discriminate H].
    destruct (Res.mapM f tl) as [ys'|] eqn:Ftl; [|discriminate H].
    inversion H; subst ys. destruct Hin as [<- | Hin].
    + exists x. split; [now left | exact Fx].
    + destruct (IH ys' eq_refl Hin) as (x' & Hx' & Hf).
      exists x'. split; [now right | exact Hf].
Qed.

Lemma index_In {A} (l : list A) (i : Z) (x : A) : Py.index l i = Ok x -> In x l.
Proof.
  unfold Py.index. cbv zeta.
  destruct (_ || _); [discriminate|].
  destruct (nth_error l _) eqn:E; [|discriminate].
  intros [= <-]. eapply nth_error_In. exact E.
Qed.

(** X14: what an atoms section that is built holds.  The lattice vectors
    are the [avecs] entry tagged bohr and come together with a periodic
    flag that is three times true; the reciprocal vectors are [bvecs] per
    bohr; the positions are the [xangst] entry, tagged bohr as well.  The
    labels, when set, are one symbol of the table per site of [typat]. *)
Theorem atoms_section_shape (chemical_symbols : list string) (structure : json)
  (sec_atoms : Atoms.t) :
  atoms_section chemical_symbols structure = Ok sec_atoms ->
  (Atoms.lattice_vectors sec_atoms = None <-> Atoms.periodic sec_atoms = None)
  /\ (forall p, Atoms.periodic sec_atoms = Some p -> p = [true; true; true])
  /\ (forall q, Atoms.lattice_vectors sec_atoms = Some q ->
                Json.get structure "avecs" = Ok (magnitude q) /\ units q = bohr)
  /\ (forall q, Atoms.lattice_vectors_reciprocal sec_atoms = Some q ->
                Json.get structure "bvecs" = Ok (magnitude q) /\ units q = per_bohr)
  /\ (forall q, Atoms.positions sec_atoms = Some q ->
                Json.get structure "xangst" = Ok (magnitude q) /\ units q = bohr)
  /\ (forall ls, Atoms.labels sec_atoms = Some ls ->
                 exists typat sites,
                   Json.get structure "typat" = Ok typat
                   /\ Json.iter typat = Ok sites
                   /\ length ls = length sites
                   /\ forall l, In l ls -> In l chemical_symbols).
Proof.
  intros H. unfold atoms_section in H.
  apply bind_ok_inv in H. destruct H as (avecs & Ha & H).
  apply bind_ok_inv in H. destruct H as (lattice & Hl & H).
  apply bind_ok_inv in H. destruct H as (bvecs & Hb & H).
  apply bind_ok_inv in H. destruct H as (reciprocal & Hr & H).
  apply bind_ok_inv in H. destruct H as (znucl & Hz & H).
  apply bind_ok_inv in H. destruct H as (typat & Ht & H).
  apply bind_ok_inv in H. destruct H as (labels & Hlab & H).
  apply bind_ok_inv in H. destruct H as (xangst & Hx & H).
  apply bind_ok_inv in H. destruct H as (positions & Hp & H).
  inversion H; subst sec_atoms. clear H.
  cbn [Atoms.lattice_vectors Atoms.periodic Atoms.lattice_vectors_reciprocal
       Atoms.labels Atoms.positions].
  assert (Hunit : forall v u q, with_unit v u = Ok q -> magnitude q = v /\ units q = u).
  { intros v u q Hq. unfold with_unit in Hq.
    destruct v; inversion Hq; split; reflexivity. }
  assert (Hlat : (lattice = (None, None))
                 \/ exists q, lattice = (Some q, Some [true; true; true])
                              /\ magnitude q = avecs /\ units q = bohr).
  { destruct (Json.truthy avecs); [|inversion Hl; now left].
    apply bind_ok_inv in Hl. destruct Hl as (lv & Hlv & Hl).
    apply bind_ok_inv in Hl. destruct Hl as (sl & _ & Hl).
    inversion Hl. right. exists lv. split; [reflexivity|]. now apply Hunit. }
  split; [|split; [|split; [|split; [|split]]]].
  - destruct Hlat as [-> | (q & -> & _)]; cbn; split; auto; discriminate.
  - intros p. destruct Hlat as [-> | (q & -> & _)]; cbn; [discriminate|].
    now intros [= <-].
  - intros q. destruct Hlat as [-> | (q' & -> & Hm & Hu)]; cbn; [discriminate|].
    intros [= <-]. rewrite Hm. split; assumption.
  - intros q Hq. subst reciprocal.
    destruct (Json.truthy bvecs); [|discriminate Hr].
    apply bind_ok_inv in Hr. destruct Hr as (rv & Hrv & Hr). inversion Hr; subst rv.
    destruct (Hunit _ _ _ Hrv) as [Hm Hu]. rewrite Hm. split; assumption.
  - intros q Hq. subst positions.
    destruct (Json.truthy xangst); [|discriminate Hp].
    apply bind_ok_inv in Hp. destruct Hp as (pv & Hpv & Hp). inversion Hp; subst pv.
    destruct (Hunit _ _ _ Hpv) as [Hm Hu]. rewrite Hm. split; assumption.
  - intros ls Hls. subst labels.
    destruct (Json.truthy znucl && Json.truthy typat); [|discriminate Hlab].
    apply bind_ok_inv in Hlab. destruct Hlab as (ls' & Hal & Hlab).
    inversion Hlab; subst ls'. unfold atoms_labels in Hal.
    apply bind_ok_inv in Hal. destruct Hal as (typat' & Ht' & Hal).
    apply bind_ok_inv in Hal. destruct Hal as (sites & Hsites & Hal).
    exists typat', sites. split; [exact Ht'|]. split; [exact Hsites|].
    split; [eapply mapM_length; exact Hal|].
    intros l Hin. destruct (mapM_forall _ _ _ _ Hal Hin) as (n_at & _ & Hf).
    repeat bind_inv Hf. eapply index_In. exact Hf.
Qed.

Lemma atoms_section_shape_witness :
  exists sec_atoms,
    atoms_section Sample.symbols Sample.structure = Ok sec_atoms
    /\ Atoms.labels sec_atoms = Some ["Li"; "H"; "H"]
    /\ forall l, In l ["Li"; "H"; "H"] -> In l Sample.symbols.
Proof.
  destruct (atoms_section Sample.symbols Sample.structure) as [sec_atoms|e] eqn:E;
    [|vm_compute in E; discriminate E].
  exists sec_atoms. split; [reflexivity|].
  assert (Hl : Atoms.labels sec_atoms = Some ["Li"; "H"; "H"])
    by (vm_compute in E; inversion E; reflexivity).
  split; [exact Hl|].
  destruct (atoms_section_shape _ _ _ E) as (_ & _ & _ & _ & _ & H).
  destruct (H _ Hl) as (typat & sites & _ & _ & _ & Hin). exact Hin.
Defined.

(** X15: a program section that is built is always named OCEAN, and its
    original DFT code is QuantumESPRESSO for the program name qe, ABINIT
    for abi, and unset for any other string, number, boolean or null:
    unlike an unknown solver, an unknown DFT program is not an error. *)
Theorem program_section_shape (data : json) (p : Program.t) :
  program_section data = Ok p ->
  Program.name p = Some "OCEAN"
  /\ exists dft prog,
      Json.getitem data "dft" = Ok dft
      /\ Json.get dft "program" = Ok prog
      /\ (forall l, prog <> JList l)
      /\ (forall kv, prog <> JDict kv)
      /\ Program.x_ocean_original_dft_code p
         = match prog with
           | JStr s =>
               if String.eqb s "qe" then Some "QuantumESPRESSO"
               else if String.eqb s "abi" then Some "ABINIT"
               else None
           | _ => None
           end.
Proof.
  intros H. unfold program_section in H.
  apply bind_ok_inv in H. destruct H as (version & Hv & H).
  apply bind_ok_inv in H. destruct H as (hash & Hh & H).
  apply bind_ok_inv in H. destruct H as (prog & Hp & H).
  apply bind_ok_inv in H. destruct H as (code & Hc & H).
  inversion H; subst p. clear H. split; [reflexivity|].
  apply bind_ok_inv in Hp. destruct Hp as (dft & Hd & Hp).
  exists dft, prog. split; [exact Hd|]. split; [exact Hp|].
  cbn [Program.x_ocean_original_dft_code].
  destruct prog; cbn in Hc; inversion Hc; subst code;
    repeat split; try discriminate; try reflexivity.
Qed.

Lemma program_section_shape_witness :
  exists p,
    program_section (Sample.config "haydock" "1 1 0" Sample.structure) = Ok p
    /\ Program.name p = Some "OCEAN".
Proof.
  destruct (program_section (Sample.config "haydock" "1 1 0" Sample.structure))
    as [p|e] eqn:E; [|vm_compute in E; discriminate E].
  exists p. split; [reflexivity|].
  exact (proj1 (program_section_shape _ _ E)).
Defined.

(** ** parse_method: reading the edge list back *)
















(** ** parse_method: the attributes of the screening section *)

Lemma assoc_setattr_same (attrs : list (string * json)) (n : string) (v : json) :
  Json.assoc n (setattr attrs n v) = Some v.
Proof.
  induction attrs as [|[m w] tl IH]; cbn [setattr Json.assoc].
  - now rewrite String.eqb_refl.
  - destruct (String.eqb_spec m n) as [->|Hne]; cbn [Json.assoc].
    + now rewrite String.eqb_refl.
    + destruct (String.eqb_spec n m) as [->|_]; [congruence | exact IH].
Qed.

Lemma assoc_setattr_other (attrs : list (string * json)) (n n' : string) (v : json) :
  n <> n' -> Json.assoc n (setattr attrs n' v) = Json.assoc n attrs.
Proof.
  intros Hne. induction attrs as [|[m w] tl IH]; cbn [setattr Json.assoc].
  - destruct (String.eqb_spec n n'); [congruence | reflexivity].
  - destruct (String.eqb_spec m n') as [->|Hm]; cbn [Json.assoc].
    + destruct (String.eqb_spec n n'); [congruence | reflexivity].
    + destruct (String.eqb_spec n m); [reflexivity | exact IH].
Qed.

Lemma append_inj_r (p a b : string) : (p ++ a = p ++ b)%string -> a = b.
Proof.
  induction p as [|c p IH]; cbn [String.append]; intros H; [exact H|].
  injection H as H. now apply IH.
Qed.

Lemma assoc_in_fst {A} (k : string) (l : list (string * A)) :
  In k (map fst l) -> exists v, Json.assoc k l = Some v.
Proof.
  induction l as [|[k' w] tl IH]; cbn [map fst In Json.assoc]; [tauto|].
  intros [->|H].
  - rewrite String.eqb_refl. eauto.
  - destruct (String.eqb k k'); eauto.
Qed.

(** What a loop of [setattr] calls leaves behind: every key of the loop
    has its attribute, holding the value read for it, and every other name
    is as before. *)
Lemma setattrs_from_spec (src : string -> result json) (p : string)
  (ks : list string) :
  forall a a', setattrs_from src p ks a = Ok a' ->
    (forall k, In k ks ->
       exists v, src k = Ok v /\ Json.assoc (p ++ k) a' = Some v)
    /\ (forall n, In n (map (String.append p) ks)
                  \/ Json.assoc n a' = Json.assoc n a).
Proof.
  induction ks as [|k tl IH]; intros a a' H.
  - cbn in H. inversion H; subst a'. split; [intros k []| now right].
  - cbn [setattrs_from] in H. apply bind_ok_inv in H.
    destruct H as (v & Hv & H). destruct (IH _ _ H) as (IH1 & IH2).
    assert (Hframe : forall n, In n (map (String.append p) (k :: tl))
                               \/ Json.assoc n a' = Json.assoc n a).
    { intros n. destruct (IH2 n) as [Hin | Heq]; [left; now right|].
      destruct (string_dec n (p ++ k)) as [->|Hne]; [left; now left|].
      right. rewrite Heq. now apply assoc_setattr_other. }
    split; [|exact Hframe].
    intros k' [<-|Hin]; [|now apply IH1].
    destruct (IH2 (p ++ k)%string) as [Hin | Heq].
    + apply in_map_iff in Hin. destruct Hin as (k' & E & Hin).
      apply append_inj_r in E. subst k'. now apply IH1.
    + exists v. split; [exact Hv|]. rewrite Heq. apply assoc_setattr_same.
Qed.

Ltac other_stage H n :=
  let Hin := fresh "Hin" in
  let E := fresh "E" in
  let x := fresh "x" in
  destruct (proj2 H n) as [Hin | ->];
  [apply in_map_iff in Hin; destruct Hin as (x & E & _);
   cbn in E; discriminate E |].

(** X17: the attributes of the screening section.  When the section is
    built, each of the eight fixed keys has its attribute [x_ocean_<key>]
    holding [screen.get(key)]; each key [sub] of the three dictionaries
    [core_offset], [final] and [grid] has its attribute
    [x_ocean_<dict>_<sub>] holding the entry of that dictionary;
    [x_ocean_model_flavor] holds [screen.model.get('flavor')]; and the
    section has no other attribute.  In particular no key of a dictionary
    can overwrite the attribute of a fixed key or the model flavor. *)
Theorem screen_attributes (data : json) (sp : ScreenParameters.t) :
  screen_parameters data = Ok sp ->
  exists screen model,
    Json.getitem data "screen" = Ok screen
    /\ Json.getitem screen "model" = Ok model
    /\ (forall key, In key screen_keys ->
          exists v, Json.get screen key = Ok v
                    /\ Json.assoc ("x_ocean_" ++ key) (ScreenParameters.attrs sp)
                       = Some v)
    /\ (forall d, In d screen_dicts ->
          exists kv, Json.getitem screen d = Ok (JDict kv)
            /\ forall sub, In sub (map fst kv) ->
                 Json.assoc ("x_ocean_" ++ d ++ "_" ++ sub)
                   (ScreenParameters.attrs sp)
                 = Json.assoc sub kv)
    /\ (exists flavor, Json.get model "flavor" = Ok flavor
          /\ Json.assoc "x_ocean_model_flavor" (ScreenParameters.attrs sp)
             = Some flavor)
    /\ (forall n, Json.assoc n (ScreenParameters.attrs sp) <> None ->
          n = "x_ocean_model_flavor"%string
          \/ (exists key, In key screen_keys /\ n = ("x_ocean_" ++ key)%string)
          \/ (exists d kv sub,
                In d screen_dicts /\ Json.getitem screen d = Ok (JDict kv)
                /\ In sub (map fst kv)
                /\ n = ("x_ocean_" ++ d ++ "_" ++ sub)%string)).
Proof.
  intros H. unfold screen_parameters in H.
  apply bind_ok_inv in H. destruct H as (a0 & H0 & H).
  apply bind_ok_inv in H. destruct H as (a3 & Hd & H).
  apply bind_ok_inv in H. destruct H as (flavor & Hf & H).
  inversion H; subst sp; clear H. cbn [ScreenParameters.attrs].
  destruct (Json.getitem data "screen") as [screen|e] eqn:Hs;
    [|discriminate Hf].
  cbn [Res.bind] in Hf.
  destruct (Json.getitem screen "model") as [model|e] eqn:Hm;
    [|discriminate Hf].
  cbn [Res.bind] in Hf.
  exists screen, model. split; [reflexivity|]. split; [exact Hm|].
  unfold screen_dicts in Hd. cbn [screen_dict_attrs] in Hd.
  rewrite Hs in Hd. cbn [Res.bind] in Hd.
  destruct (Json.getitem screen "core_offset") as [[| | | | | |kv1]|e] eqn:Hd1;
    try discriminate Hd.
  cbn [Res.bind Json.keys] in Hd.
  apply bind_ok_inv in Hd. destruct Hd as (a1 & H1 & Hd).
  destruct (Json.getitem screen "final") as [[| | | | | |kv2]|e] eqn:Hd2;
    try discriminate Hd.
  cbn [Res.bind Json.keys] in Hd.
  apply bind_ok_inv in Hd. destruct Hd as (a2 & H2 & Hd).
  destruct (Json.getitem screen "grid") as [[| | | | | |kv3]|e] eqn:Hd3;
    try discriminate Hd.
  cbn [Res.bind Json.keys] in Hd.
  apply bind_ok_inv in Hd. destruct Hd as (a3' & H3 & Hd).
  inversion Hd; subst a3'; clear Hd.
  apply setattrs_from_spec in H0, H1, H2, H3.
  split; [|split; [|split]].
  - intros key Hin. destruct (proj1 H0 key Hin) as (v & Hv & Ha).
    unfold screen_get in Hv. rewrite Hs in Hv. cbn [Res.bind] in Hv.
    exists v. split; [exact Hv|].
    unfold screen_keys in Hin. cbn [In] in Hin.
    repeat (destruct Hin as [<-|Hin]); try contradiction;
      (rewrite assoc_setattr_other by (cbn; discriminate);
       match goal with |- Json.assoc ?n _ = _ => other_stage H3 n end;
       match goal with |- Json.assoc ?n _ = _ => other_stage H2 n end;
       match goal with |- Json.assoc ?n _ = _ => other_stage H1 n end;
       exact Ha).
  - intros d Hin. unfold screen_dicts in Hin. cbn [In] in Hin.
    destruct Hin as [<-|[<-|[<-|[]]]].
    + exists kv1. split; [exact Hd1|]. intros sub Hsub.
      destruct (proj1 H1 sub Hsub) as (v & Hv & Ha).
      unfold Json.get, Json.get_default in Hv.
      destruct (assoc_in_fst _ _ Hsub) as (w & Hw). rewrite Hw in Hv |- *.
      inversion Hv; subst v.
      rewrite assoc_setattr_other by (cbn; discriminate).
      match goal with |- Json.assoc ?n _ = _ => other_stage H3 n end.
      match goal with |- Json.assoc ?n _ = _ => other_stage H2 n end.
      exact Ha.
    + exists kv2. split; [exact Hd2|]. intros sub Hsub.
      destruct (proj1 H2 sub Hsub) as (v & Hv & Ha).
      unfold Json.get, Json.get_default in Hv.
      destruct (assoc_in_fst _ _ Hsub) as (w & Hw). rewrite Hw in Hv |- *.
      inversion Hv; subst v.
      rewrite assoc_setattr_other by (cbn; discriminate).
      match goal with |- Json.assoc ?n _ = _ => other_stage H3 n end.
      exact Ha.
    + exists kv3. split; [exact Hd3|]. intros sub Hsub.
      destruct (proj1 H3 sub Hsub) as (v & Hv & Ha).
      unfold Json.get, Json.get_default in Hv.
      destruct (assoc_in_fst _ _ Hsub) as (w & Hw). rewrite Hw in Hv |- *.
      inversion Hv; subst v.
      rewrite assoc_setattr_other by (cbn; discriminate).
      exact Ha.
  - exists flavor. split; [exact Hf | apply assoc_setattr_same].
  - intros n Hn.
    destruct (string_dec n "x_ocean_model_flavor") as [->|Hne]; [now left|].
    right. rewrite assoc_setattr_other in Hn by exact Hne.
    destruct (proj2 H3 n) as [Hin|E3].
    { right. apply in_map_iff in Hin. destruct Hin as (sub & <- & Hsub).
      exists "grid"%string, kv3, sub.
      split; [cbn; tauto|]. split; [exact Hd3|]. split; [exact Hsub|reflexivity]. }
    rewrite E3 in Hn. destruct (proj2 H2 n) as [Hin|E2].
    { right. apply in_map_iff in Hin. destruct Hin as (sub & <- & Hsub).
      exists "final"%string, kv2, sub.
      split; [cbn; tauto|]. split; [exact Hd2|]. split; [exact Hsub|reflexivity]. }
    rewrite E2 in Hn. destruct (proj2 H1 n) as [Hin|E1].
    { right. apply in_map_iff in Hin. destruct Hin as (sub & <- & Hsub).
      exists "core_offset"%string, kv1, sub.
      split; [cbn; tauto|]. split; [exact Hd1|]. split; [exact Hsub|reflexivity]. }
    rewrite E1 in Hn. destruct (proj2 H0 n) as [Hin|E0].
    { left. apply in_map_iff in Hin. destruct Hin as (key & <- & Hkey).
      exists key. split; [exact Hkey | reflexivity]. }
    rewrite E0 in Hn. cbn in Hn. congruence.
Qed.

Lemma screen_attributes_witness :
  exists sp,
    screen_parameters (Sample.config "haydock" "1 1 0" Sample.structure) = Ok sp
    /\ Json.assoc "x_ocean_model_flavor" (ScreenParameters.attrs sp)
       = Some (JStr "LL")
    /\ Json.assoc "x_ocean_grid_rmax" (ScreenParameters.attrs sp) = Some (JInt 8).
Proof.
  destruct (screen_parameters (Sample.config "haydock" "1 1 0" Sample.structure))
    as [sp|e] eqn:E; [|vm_compute in E; discriminate E].
  exists sp. split; [reflexivity|].
  destruct (screen_attributes _ _ E)
    as (screen & model & Hs & Hm & _ & Hd & (fl & Hf & Hfl) & _).
  cbv in Hs. injection Hs as <-.
  cbv in Hm. injection Hm as <-.
  cbv in Hf. injection Hf as <-.
  split; [exact Hfl|].
  destruct (Hd "grid"%string) as (kv & Hkv & Hsub); [cbn; tauto|].
  cbv in Hkv. injection Hkv as <-.
  exact (Hsub "rmax"%string (or_introl eq_refl)).
Defined.
